(** * Warehouse stock report (w2.py): a shallow embedding and its properties

    The program reads an Amazon ledger CSV with pandas, resolves four columns,
    cleans the balance and disposition columns, keeps the SELLABLE rows,
    sums the balance per (location, MSKU) and renders cards, CSV and PDF.

    Modelling conventions.
    - Text is [string] over code points below 128: the character tests and the
      case mappings below are Python's on ASCII; other characters are left
      alone by the model.
    - A DataFrame cell is [NaN], a Python [str] or an [int64]; a float64 cell
      other than NaN is carried as the text [astype(str)] gives it.
    - Numbers read back by [pd.to_numeric] are exact rationals; pandas goes
      through binary64, which agrees on numerals of at most 15 significant
      digits.  Sums of the [int64] balance column wrap around at 64 bits.
    - pandas semantics are those of the 1.x line the program was written for
      ([error_bad_lines] is still a [read_csv] keyword there).
    - [pd.read_csv] itself is a parameter of the reader; where a CSV text is
      read back, its tokenizer and the [int64] and [object] cases of its
      dtype inference are modelled, and a column of another dtype is left
      undetermined. *)

From Stdlib Require Import ZArith NArith QArith Qround List String Ascii Bool Lia.
From Stdlib Require Import Permutation Sorted DecimalString DecimalZ DecimalPos OrderedTypeEx.
Import ListNotations.

Local Open Scope string_scope.
Local Open Scope Z_scope.

(** ** Python [str] operations, on ASCII text *)

Module PyStr.

Definition code (c : ascii) : N := N_of_ascii c.

Definition in_range (lo hi : N) (c : ascii) : bool :=
  ((lo <=? code c) && (code c <=? hi))%N.

(** [str.isspace] on one character: TAB..CR, FS..US and the space. *)
Definition isspace (c : ascii) : bool := in_range 9 13 c || in_range 28 32 c.

Definition isdigit (c : ascii) : bool := in_range 48 57 c.
Definition isupper (c : ascii) : bool := in_range 65 90 c.
Definition islower (c : ascii) : bool := in_range 97 122 c.

Definition lower_char (c : ascii) : ascii :=
  if isupper c then ascii_of_N (code c + 32) else c.

Definition upper_char (c : ascii) : ascii :=
  if islower c then ascii_of_N (code c - 32) else c.

Fixpoint smap (f : ascii -> ascii) (s : string) : string :=
  match s with
  | EmptyString => EmptyString
  | String c s' => String (f c) (smap f s')
  end.

(** [str.lower()] and [str.upper()]. *)
Definition lower : string -> string := smap lower_char.
Definition upper : string -> string := smap upper_char.

(** [str.lstrip()], [str.rstrip()] and [str.strip()] with no argument. *)
Fixpoint lstrip (s : string) : string :=
  match s with
  | EmptyString => EmptyString
  | String c s' => if isspace c then lstrip s' else s
  end.

Fixpoint rstrip (s : string) : string :=
  match s with
  | EmptyString => EmptyString
  | String c s' =>
      match rstrip s' with
      | EmptyString => if isspace c then EmptyString else String c EmptyString
      | r => String c r
      end
  end.

Definition strip (s : string) : string := rstrip (lstrip s).

(** [keep p s]: the characters of [s] that satisfy [p], in order. *)
Fixpoint keep (p : ascii -> bool) (s : string) : string :=
  match s with
  | EmptyString => EmptyString
  | String c s' => if p c then String c (keep p s') else keep p s'
  end.

Fixpoint sall (p : ascii -> bool) (s : string) : bool :=
  match s with
  | EmptyString => true
  | String c s' => p c && sall p s'
  end.

Fixpoint sany (p : ascii -> bool) (s : string) : bool :=
  match s with
  | EmptyString => false
  | String c s' => p c || sany p s'
  end.

(** [s.replace(old, empty)] for a one-character [old] and the empty text. *)
Definition remove_char (old : ascii) (s : string) : string :=
  keep (fun c => negb (Ascii.eqb c old)) s.

(** [sub in s]: the substring test. *)
Fixpoint isprefix (p s : string) : bool :=
  match p, s with
  | EmptyString, _ => true
  | String a p', String b s' => Ascii.eqb a b && isprefix p' s'
  | String _ _, EmptyString => false
  end.

Fixpoint contains (sub s : string) : bool :=
  isprefix sub s ||
  match s with
  | EmptyString => false
  | String _ s' => contains sub s'
  end.

Definition hexdigit (n : N) : ascii :=
  if (n <? 10)%N then ascii_of_N (48 + n) else ascii_of_N (87 + n).

Definition squote : ascii := "039"%char.
Definition dquote : ascii := "034"%char.
Definition backslash : ascii := "092"%char.

(** One character of [repr(s)] when [q] is the enclosing quote. *)
Definition repr_char (q c : ascii) : string :=
  if Ascii.eqb c q || Ascii.eqb c backslash then String backslash (String c EmptyString)
  else if Ascii.eqb c "009"%char then String backslash "t"
  else if Ascii.eqb c "010"%char then String backslash "n"
  else if Ascii.eqb c "013"%char then String backslash "r"
  else if (code c <? 32)%N || (code c =? 127)%N then
    String backslash (String "x" (String (hexdigit (code c / 16)) (String (hexdigit (code c mod 16)) EmptyString)))
  else String c EmptyString.

Fixpoint repr_body (q : ascii) (s : string) : string :=
  match s with
  | EmptyString => EmptyString
  | String c s' => repr_char q c ++ repr_body q s'
  end.

(** [repr(s)]: single quotes, unless [s] has a single quote and no double one. *)
Definition repr (s : string) : string :=
  let q := if sany (Ascii.eqb squote) s && negb (sany (Ascii.eqb dquote) s)
           then dquote else squote in
  String q (repr_body q s ++ String q EmptyString).

(** [sep.join(parts)]. *)
Fixpoint join (sep : string) (parts : list string) : string :=
  match parts with
  | [] => EmptyString
  | [p] => p
  | p :: rest => p ++ sep ++ join sep rest
  end.

(** [repr] of a list of [str], as an f-string formats [list(df.columns)]. *)
Definition repr_list (l : list string) : string :=
  "[" ++ join ", " (map repr l) ++ "]".

End PyStr.

(** ** Python [dict] with [str] keys, in insertion order *)

Module PyDict.

Section Dict.
Context {V : Type}.

Definition dict := list (string * V).

(** [d[k] = v]: an existing key keeps its place. *)
Fixpoint set (k : string) (v : V) (d : dict) : dict :=
  match d with
  | [] => [(k, v)]
  | (k', v') :: d' => if String.eqb k' k then (k, v) :: d' else (k', v') :: set k v d'
  end.

(** [d.get(k)]. *)
Fixpoint get (k : string) (d : dict) : option V :=
  match d with
  | [] => None
  | (k', v') :: d' => if String.eqb k' k then Some v' else get k d'
  end.

End Dict.

End PyDict.

(** ** Column resolver *)

(** [{c.strip().lower(): c for c in df.columns}]. *)
Definition column_mapping (columns : list string) : PyDict.dict :=
  fold_left (fun m c => PyDict.set (PyStr.lower (PyStr.strip c)) c m) columns [].

Definition _find_column_by_name (columns : list string) (desired_name : string)
  : option string :=
  PyDict.get (PyStr.lower (PyStr.strip desired_name)) (column_mapping columns).

(** Two names are the same up to case and surrounding whitespace. *)
Definition same_name (a b : string) : Prop :=
  PyStr.lower (PyStr.strip a) = PyStr.lower (PyStr.strip b).

Definition same_nameb (a b : string) : bool :=
  String.eqb (PyStr.lower (PyStr.strip a)) (PyStr.lower (PyStr.strip b)).

(** [df.columns = [c.strip() for c in df.columns]]. *)
Definition strip_columns (columns : list string) : list string :=
  map PyStr.strip columns.

(** The [required] dict: semantic key, display name. *)
Definition required : list (string * string) :=
  [ ("msku", "MSKU");
    ("disposition", "Disposition");
    ("balance", "Ending Warehouse Balance");
    ("location", "Location") ].

(** The body of the [for key, pretty in required.items()] loop. *)
Definition resolve (columns : list string) (key pretty : string) : option string :=
  match _find_column_by_name columns pretty with
  | Some col => Some col
  | None => _find_column_by_name columns key
  end.

Definition found (columns : list string) : PyDict.dict :=
  fold_left (fun f kp => PyDict.set (fst kp) (resolve columns (fst kp) (snd kp)) f)
            required [].

(** [missing = [v for k, v in found.items() if v is None]]: the values kept
    are the [None]s themselves. *)
Definition missing (f : @PyDict.dict (option string)) : list (option string) :=
  filter (fun v => match v with None => true | Some _ => false end) (map snd f).

Definition newline : string := String "010"%char EmptyString.

(** The text passed to [st.error] before [st.stop()]: a literal line, and
    the f-string with the headers. *)
Definition required_line : string :=
  "CSV is missing required columns. Required: MSKU, Disposition, Ending Warehouse Balance, Location".

Definition found_line (columns : list string) : string :=
  "Found: " ++ PyStr.repr_list columns.

Definition schema_message (columns : list string) : string :=
  required_line ++ newline ++ found_line columns.

(** A reading of "the message lists the names of the missing fields": a
    required display name stands in the line before the headers exactly when
    its field was not resolved. *)
Definition names_the_missing_fields (columns : list string) (line : string) : Prop :=
  forall key pretty, In (key, pretty) required ->
    (PyStr.contains pretty line = true <-> resolve columns key pretty = None).

(** ** DataFrame cells and the value normalizer *)

Inductive cell : Type :=
| NaN
| Str (s : string)
| Int (z : Z).

Definition isna (c : cell) : bool :=
  match c with NaN => true | _ => false end.

Definition cell_eq_dec (a b : cell) : {a = b} + {a <> b}.
Proof. decide equality; [apply string_dec | apply Z.eq_dec]. Defined.

(** [str(z)] for a Python [int]. *)
Definition str_of_int (z : Z) : string := NilZero.string_of_int (Z.to_int z).

(** [Series.astype(str)], cell by cell: a missing value becomes the text [nan]. *)
Definition astype_str (c : cell) : string :=
  match c with
  | NaN => "nan"
  | Str s => s
  | Int z => str_of_int z
  end.

(** [.str.replace] of every comma by the empty text, with [regex=False]. *)
Definition remove_commas (s : string) : string := PyStr.remove_char "," s.

(** The class [[\d\.\-]]; [.str.replace] of the pattern [[^\d\.\-]] by the
    empty text, with [regex=True], deletes every character outside it. *)
Definition numeric_char (c : ascii) : bool :=
  PyStr.isdigit c || Ascii.eqb c "." || Ascii.eqb c "-".

Definition remove_non_numeric (s : string) : string := PyStr.keep numeric_char s.

Definition clean_balance_text (c : cell) : string :=
  remove_non_numeric (remove_commas (astype_str c)).

(** The longest prefix of digits, and what follows it. *)
Fixpoint take_digits (s : string) : string * string :=
  match s with
  | EmptyString => (EmptyString, EmptyString)
  | String c s' =>
      if PyStr.isdigit c
      then let (d, r) := take_digits s' in (String c d, r)
      else (EmptyString, s)
  end.

Definition digit_value (c : ascii) : Z := Z.of_N (PyStr.code c - 48).

Fixpoint digits_value (acc : Z) (d : string) : Z :=
  match d with
  | EmptyString => acc
  | String c d' => digits_value (10 * acc + digit_value c) d'
  end.

Definition is_empty (s : string) : bool :=
  match s with EmptyString => true | _ => false end.

(** Digits, then optionally a point and more digits; one digit at least;
    nothing after. *)
Definition parse_unsigned (s : string) : option Q :=
  let (ip, r) := take_digits s in
  match r with
  | EmptyString =>
      if is_empty ip then None else Some (digits_value 0 ip # 1)
  | String c r' =>
      if Ascii.eqb c "." then
        let (fp, r'') := take_digits r' in
        if is_empty r'' && negb (is_empty ip && is_empty fp) then
          let scale := 10 ^ Z.of_nat (String.length fp) in
          Some (digits_value (digits_value 0 ip) fp # Z.to_pos scale)
        else None
      else None
  end.

(** [pd.to_numeric(_, errors="coerce")] on one cleaned text (an alphabet of
    digits, point and minus sign): [None] stands for the NaN of a text that
    is not a numeral. *)
Definition to_numeric (s : string) : option Q :=
  match s with
  | EmptyString => None
  | String c s' =>
      if Ascii.eqb c "-" then option_map Qopp (parse_unsigned s')
      else parse_unsigned s
  end.

(** [.fillna(0)]. *)
Definition fillna0 (v : option Q) : Q :=
  match v with Some q => q | None => 0%Q end.

(** [.astype(int)] on a finite float: the fraction is cut off. *)
Definition astype_int (q : Q) : Z := Z.quot (Qnum q) (Z.pos (Qden q)).

Definition normalize_balance (c : cell) : Z :=
  astype_int (fillna0 (to_numeric (clean_balance_text c))).

(** [df[disp_col].astype(str).str.strip().str.upper()]. *)
Definition normalize_disposition (c : cell) : string :=
  PyStr.upper (PyStr.strip (astype_str c)).

(** [.fillna("Unknown")]. *)
Definition fillna_unknown (c : cell) : cell :=
  match c with NaN => Str "Unknown" | _ => c end.

(** ** 64-bit integers *)

Definition wrap64 (z : Z) : Z := (z + 2 ^ 63) mod 2 ^ 64 - 2 ^ 63.
Definition add64 (a b : Z) : Z := wrap64 (a + b).

(** [Series.sum()] of an [int64] column. *)
Definition sum64 (l : list Z) : Z := fold_left add64 l 0.

(** The sum of a list of integers, without wrap-around. *)
Definition zsum (l : list Z) : Z := fold_right Z.add 0 l.

(** ** Group-by with a sum *)

(** Order of group keys: numbers before text, a missing value last. *)
Definition cell_compare (a b : cell) : comparison :=
  match a, b with
  | Int x, Int y => Z.compare x y
  | Int _, _ => Lt
  | Str _, Int _ => Gt
  | Str s, Str t => String.compare s t
  | Str _, NaN => Lt
  | NaN, NaN => Eq
  | NaN, _ => Gt
  end.

Definition key_compare (a b : cell * cell) : comparison :=
  match cell_compare (fst a) (fst b) with
  | Eq => cell_compare (snd a) (snd b)
  | c => c
  end.

Section GroupBy.
Context {K : Type}.
Variable compare : K -> K -> comparison.
Variable has_na : K -> bool.

(** One more value for the group of [k]; groups are kept in key order. *)
Fixpoint group_add (k : K) (b : Z) (g : list (K * Z)) : list (K * Z) :=
  match g with
  | [] => [(k, add64 0 b)]
  | (k', t) :: g' =>
      match compare k k' with
      | Eq => (k', add64 t b) :: g'
      | Lt => (k, add64 0 b) :: g
      | Gt => (k', t) :: group_add k b g'
      end
  end.

(** [groupby(keys)[col].sum()]: rows with a missing key are left out
    ([dropna=True]), groups come sorted by key ([sort=True]). *)
Definition groupby_sum (items : list (K * Z)) : list (K * Z) :=
  fold_left (fun g kb => if has_na (fst kb) then g else group_add (fst kb) (snd kb) g)
            items [].

(** The items whose key is present. *)
Definition keyed (items : list (K * Z)) : list (K * Z) :=
  filter (fun kb => negb (has_na (fst kb))) items.

Definition is_eq (c : comparison) : bool :=
  match c with Eq => true | _ => false end.

(** The total recorded for a key, if it has a group. *)
Fixpoint group_total (k : K) (g : list (K * Z)) : option Z :=
  match g with
  | [] => None
  | (k', t) :: g' => if is_eq (compare k k') then Some t else group_total k g'
  end.

(** The values of the items filed under [k], in their order. *)
Definition values_at (k : K) (items : list (K * Z)) : list Z :=
  map snd (filter (fun kb => is_eq (compare (fst kb) k)) (keyed items)).

End GroupBy.

(** ** Aggregator *)

(** A row of the uploaded table after the two normalized columns have been
    written back: the four resolved fields. *)
Record record : Type := mkRecord {
  r_location : cell;
  r_msku : cell;
  r_disposition : string;
  r_balance : Z
}.

(** A row of [agg]: columns Location, MSKU, Ending Warehouse Balance. *)
Record agg_row : Type := mkAgg {
  Location : cell;
  MSKU : cell;
  Balance : Z
}.

Definition is_sellable (r : record) : bool :=
  String.eqb (r_disposition r) "SELLABLE".

(** [df_sellable = df[df[disp_col] == "SELLABLE"].copy()]. *)
Definition df_sellable (recs : list record) : list record :=
  filter is_sellable recs.

Definition key_has_na (k : cell * cell) : bool := isna (fst k) || isna (snd k).

(** [df_sellable[loc_col].fillna("Unknown")] and the three columns the
    group-by reads. *)
Definition group_items (sellable : list record) : list (cell * cell * Z) :=
  map (fun r => ((fillna_unknown (r_location r), r_msku r), r_balance r)) sellable.

(** [groupby([loc_col, msku_col], as_index=False)[bal_col].sum()] and the
    renaming of the three columns. *)
Definition aggregate (sellable : list record) : list agg_row :=
  map (fun kt => mkAgg (fst (fst kt)) (snd (fst kt)) (snd kt))
      (groupby_sum key_compare key_has_na (group_items sellable)).

(** [sort_values(ascending=False)]: pandas' default sort is not stable beyond
    short inputs; equal totals keep their key order here. *)
Fixpoint insert_desc (x : cell * Z) (l : list (cell * Z)) : list (cell * Z) :=
  match l with
  | [] => [x]
  | y :: l' => if snd y <? snd x then x :: l else y :: insert_desc x l'
  end.

Definition sort_desc (l : list (cell * Z)) : list (cell * Z) :=
  fold_right insert_desc [] l.

(** [agg.groupby("Location")["Ending Warehouse Balance"].sum()]. *)
Definition location_sums (agg : list agg_row) : list (cell * Z) :=
  groupby_sum cell_compare isna (map (fun r => (Location r, Balance r)) agg).

Definition location_totals (agg : list agg_row) : list (cell * Z) :=
  sort_desc (location_sums agg).

(** [list(location_totals.index)]. *)
Definition locations (agg : list agg_row) : list cell :=
  map fst (location_totals agg).

(** The balances of the rows of one location. *)
Definition balances_at (l : cell) (agg : list agg_row) : list Z :=
  map Balance (filter (fun r => if cell_eq_dec (Location r) l then true else false) agg).

(** [int(agg["Ending Warehouse Balance"].sum())]. *)
Definition overall_total (agg : list agg_row) : Z := sum64 (map Balance agg).

(** ** The uploaded table and the main script *)

Record DataFrame : Type := mkFrame {
  columns : list string;
  rows : list (list cell)
}.

Fixpoint index_of (name : string) (cols : list string) : nat :=
  match cols with
  | [] => O
  | c :: cols' => if String.eqb c name then O else S (index_of name cols')
  end.

Definition count_label (name : string) (cols : list string) : nat :=
  List.length (filter (String.eqb name) cols).

(** [df[name]] as a Series: the reader of that column in a row.  When the
    label occurs twice (two headers equal once trimmed) [df[name]] is a
    DataFrame and the Series operations applied to it raise. *)
Definition series (cols : list string) (name : string) : option (list cell -> cell) :=
  if Nat.eqb (count_label name cols) 1
  then Some (fun row => nth (index_of name cols) row NaN)
  else None.

(** What the script has put on the page when it stops. *)
Inductive outcome (A : Type) : Type :=
| Shown (a : A)
| SchemaError (msg : string)
| NoSellable
| Raised.

Arguments Shown {A} a.
Arguments SchemaError {A} msg.
Arguments NoSellable {A}.
Arguments Raised {A}.

(** The values computed between the sellable filter and the search box. *)
Record report : Type := mkReport {
  agg : list agg_row;
  totals : list (cell * Z);
  locs : list cell;
  total_warehouses : nat;
  unique_skus : nat;
  grand_total : Z
}.

Definition report_of (a : list agg_row) : report :=
  {| agg := a;
     totals := location_totals a;
     locs := locations a;
     total_warehouses := List.length (locations a);
     unique_skus :=
       List.length (nodup cell_eq_dec (filter (fun c => negb (isna c)) (map MSKU a)));
     grand_total := overall_total a |}.

(** The four resolved columns of every row, balance and disposition
    normalized. *)
Definition normalized (loc msku disp bal : list cell -> cell) (rs : list (list cell))
  : list record :=
  map (fun row => mkRecord (loc row) (msku row)
                           (normalize_disposition (disp row))
                           (normalize_balance (bal row))) rs.

Definition lookup (f : @PyDict.dict (option string)) (key : string) : option string :=
  match PyDict.get key f with
  | Some (Some col) => Some col
  | _ => None
  end.

(** The script from [df.columns = ...] to the metrics. *)
Definition main (df : DataFrame) : outcome report :=
  let cols := strip_columns (columns df) in
  let f := found cols in
  match missing f with
  | _ :: _ => SchemaError (schema_message cols)
  | [] =>
      match lookup f "msku", lookup f "disposition",
            lookup f "balance", lookup f "location" with
      | Some msku_col, Some disp_col, Some bal_col, Some loc_col =>
          match series cols bal_col, series cols disp_col with
          | Some bal, Some disp =>
              let sellable_rows :=
                filter (fun row => String.eqb (normalize_disposition (disp row)) "SELLABLE")
                       (rows df) in
              match sellable_rows with
              | [] => NoSellable
              | _ :: _ =>
                  match series cols loc_col, series cols msku_col with
                  | Some loc, Some msku =>
                      Shown (report_of (aggregate (normalized loc msku disp bal sellable_rows)))
                  | _, _ => Raised
                  end
              end
          | _, _ => Raised
          end
      | _, _, _, _ => Raised
      end
  end.

(** The normalized records of all input rows, when the four columns
    resolve to one column each. *)
Definition input_records (df : DataFrame) : option (list record) :=
  let cols := strip_columns (columns df) in
  let f := found cols in
  match lookup f "msku", lookup f "disposition",
        lookup f "balance", lookup f "location" with
  | Some msku_col, Some disp_col, Some bal_col, Some loc_col =>
      match series cols loc_col, series cols msku_col,
            series cols disp_col, series cols bal_col with
      | Some loc, Some msku, Some disp, Some bal =>
          Some (normalized loc msku disp bal (rows df))
      | _, _, _, _ => None
      end
  | _, _, _, _ => None
  end.

(** ** The search box *)

(** Characters that are not literals in a regular expression, the dot
    apart. *)
Definition regex_special (c : ascii) : bool :=
  PyStr.sany (Ascii.eqb c) "^$*+?{}[]|()" || Ascii.eqb c PyStr.backslash.

(** One pattern character against one character of the text: a dot stands
    for any character but a line feed. *)
Definition regex_char (a b : ascii) : bool :=
  if Ascii.eqb a "." then negb (Ascii.eqb b "010"%char) else Ascii.eqb a b.

Fixpoint regex_match (pat s : string) : bool :=
  match pat, s with
  | EmptyString, _ => true
  | String a pat', String b s' => regex_char a b && regex_match pat' s'
  | String _ _, EmptyString => false
  end.

(** [re.search(pat, s) is not None] for a pattern of literals and dots. *)
Fixpoint regex_search (pat s : string) : bool :=
  regex_match pat s ||
  match s with
  | EmptyString => false
  | String _ s' => regex_search pat s'
  end.

(** [Series.str.contains(pat)] with its default [regex=True], for a pattern
    made of literal characters and dots; other regular-expression syntax is
    outside this development ([None]). *)
Definition str_contains (pat : string) (col : list string) : option (list bool) :=
  if PyStr.sany regex_special pat then None
  else Some (map (regex_search pat) col).

(** [frame[mask]]. *)
Definition boolean_index {A : Type} (frame : list A) (mask : list bool) : list A :=
  map fst (filter snd (combine frame mask)).

(** What the cards and the downloads are drawn from. *)
Record view : Type := mkView {
  v_agg : list agg_row;
  v_location_totals : list (cell * Z);
  v_locations : list cell
}.

(** [search = st.text_input(...).strip().lower()] and the [if search:] block. *)
Definition apply_search (typed : string) (v : view) : option view :=
  let search := PyStr.lower (PyStr.strip typed) in
  if is_empty search then Some v
  else
    match str_contains search (map (fun r => PyStr.lower (astype_str (MSKU r))) (v_agg v)) with
    | None => None
    | Some mask =>
        let a := boolean_index (v_agg v) mask in
        Some {| v_agg := a;
                v_location_totals := location_totals a;
                v_locations := locations a |}
    end.


(** ** Tabular reader *)

Module Reader.

(** Keyword arguments of the [pd.read_csv] calls. *)
Record kwargs : Type := mkKwargs {
  encoding : option string;
  engine : option string;
  error_bad_lines : bool
}.

Definition strict (enc : option string) : kwargs :=
  {| encoding := enc; engine := None; error_bad_lines := true |}.

Definition lenient : kwargs :=
  {| encoding := Some "utf-8"; engine := Some "python"; error_bad_lines := false |}.

Section ReadCsv.

(** The parsed table, the exceptions, the bytes of the upload. *)
Variables (table exn : Type) (content : list Byte.byte).

(** [pd.read_csv(uploaded_file, **kw)]: it reads from the cursor of the
    buffer and leaves the cursor where it stopped. *)
Variable read_csv : kwargs -> list Byte.byte -> nat -> (table + exn) * nat.

(** Computations on the cursor of [uploaded_file]. *)
Definition io (A : Type) : Type := nat -> A * nat.

Definition ret {A : Type} (a : A) : io A := fun cur => (a, cur).

Definition bind {A B : Type} (m : io A) (k : A -> io B) : io B :=
  fun cur => let (a, cur') := m cur in k a cur'.

Definition seek (p : nat) : io unit := fun _ => (tt, p).

Definition call_read_csv (kw : kwargs) : io (table + exn) :=
  fun cur => read_csv kw content cur.

(** The [for enc in (None, "latin1", "utf-8")] loop: [Some t] is the
    [return] inside [try]. *)
Fixpoint try_encodings (encs : list (option string)) : io (option table) :=
  match encs with
  | [] => ret None
  | enc :: rest =>
      bind (call_read_csv (strict enc)) (fun r =>
      match r with
      | inl t => ret (Some t)
      | inr _ => bind (seek 0) (fun _ => try_encodings rest)
      end)
  end.

Definition _read_csv_safe : io (table + exn) :=
  bind (seek 0) (fun _ =>
  bind (try_encodings [None; Some "latin1"; Some "utf-8"]) (fun r =>
  match r with
  | Some t => ret (inl t)
  | None => bind (seek 0) (fun _ => call_read_csv lenient)
  end)).

(** The reader as the specification words it: the attempts in order, each
    on the whole upload from its first byte; the first that does not raise
    gives the table, and the exception of the last one is the error. *)
Definition attempts : list kwargs :=
  [strict None; strict (Some "latin1"); strict (Some "utf-8"); lenient].

Definition attempt (kw : kwargs) : table + exn := fst (read_csv kw content 0).

Fixpoint first_success (first : kwargs) (others : list kwargs) : table + exn :=
  match attempt first, others with
  | inl t, _ => inl t
  | inr e, [] => inr e
  | inr _, kw :: rest => first_success kw rest
  end.

Definition reader_spec : table + exn :=
  first_success (strict None) [strict (Some "latin1"); strict (Some "utf-8"); lenient].

Definition raises (r : table + exn) : Prop :=
  match r with inl _ => False | inr _ => True end.

End ReadCsv.

Arguments ret {A} a _.
Arguments bind {A B} m k _.
Arguments call_read_csv {table exn} content read_csv kw _.
Arguments try_encodings {table exn} content read_csv encs _.
Arguments _read_csv_safe {table exn} content read_csv _.
Arguments attempt {table exn} content read_csv kw.
Arguments first_success {table exn} content read_csv first others.
Arguments reader_spec {table exn} content read_csv.
Arguments raises {table exn} r.

(** A reader for the examples: it accepts the upload only as latin-1 and
    only from its first byte, and leaves the cursor at the end. *)
Definition latin1_only (kw : kwargs) (content : list Byte.byte) (cur : nat)
  : (nat + string) * nat :=
  match cur, encoding kw with
  | O, Some enc =>
      if String.eqb enc "latin1"
      then (inl (List.length content), List.length content)
      else (inr "codec cannot decode", List.length content)
  | O, None => (inr "codec cannot decode", List.length content)
  | S _, _ => (inr "No columns to parse from file", List.length content)
  end.

End Reader.

(** ** CSV download *)

Definition csv_columns : list string :=
  ["Location"; "MSKU"; "Ending Warehouse Balance"].

(** The text [to_csv] writes for a cell; a missing value is written empty. *)
Definition cell_text (c : cell) : string :=
  match c with
  | NaN => EmptyString
  | Str s => s
  | Int z => str_of_int z
  end.

Definition comma : ascii := ","%char.
Definition lf : ascii := "010"%char.
Definition cr : ascii := "013"%char.

(** Minimal quoting of Python's [csv] writer, line terminator LF: a field
    is quoted when it holds the delimiter, the quote or a line-terminator
    character; a quote inside is doubled. *)
Definition needs_quotes (s : string) : bool :=
  PyStr.sany (fun c => Ascii.eqb c comma || Ascii.eqb c PyStr.dquote || Ascii.eqb c lf) s.

Fixpoint double_quotes (s : string) : string :=
  match s with
  | EmptyString => EmptyString
  | String c s' =>
      if Ascii.eqb c PyStr.dquote
      then String PyStr.dquote (String PyStr.dquote (double_quotes s'))
      else String c (double_quotes s')
  end.

Definition csv_field (s : string) : string :=
  if needs_quotes s
  then String PyStr.dquote (double_quotes s ++ String PyStr.dquote EmptyString)
  else s.

(** The fields of one line, the first apart (a line has one at least). *)
Fixpoint csv_fields (first : string) (others : list string) : string :=
  match others with
  | [] => csv_field first ++ String lf EmptyString
  | f :: rest => csv_field first ++ String comma (csv_fields f rest)
  end.

Definition row_text (r : agg_row) : list string :=
  [cell_text (Location r); cell_text (MSKU r); str_of_int (Balance r)].

Definition csv_row (r : agg_row) : string :=
  csv_fields (cell_text (Location r)) [cell_text (MSKU r); str_of_int (Balance r)].

Fixpoint csv_rows (a : list agg_row) : string :=
  match a with
  | [] => EmptyString
  | r :: a' => csv_row r ++ csv_rows a'
  end.

(** [agg.to_csv(index=False)]; its UTF-8 encoding is the same bytes on
    ASCII text. *)
Definition to_csv (a : list agg_row) : string :=
  csv_fields "Location" ["MSKU"; "Ending Warehouse Balance"] ++ csv_rows a.

(** ** Reading a CSV text back with [pd.read_csv]

    The tokenizer of pandas' C parser under the default options: comma,
    double quote with doubling, LF, CR or CRLF line ends, blank lines
    skipped. *)

Inductive tstate : Type :=
| START_RECORD
| START_FIELD
| IN_FIELD
| IN_QUOTED_FIELD
| QUOTE_IN_QUOTED_FIELD
| EAT_CRNL
| EAT_CRNL_NOP
| WHITESPACE_LINE.

Record parser : Type := mkParser {
  st : tstate;
  fld : string;               (* characters of the field being read *)
  row : list string;          (* fields of the line being read *)
  out : list (list string);   (* finished lines *)
  ws : string                 (* blanks seen at the start of a line *)
}.

Definition set_state (s : tstate) (p : parser) : parser :=
  {| st := s; fld := fld p; row := row p; out := out p; ws := ws p |}.

Definition push_char (c : ascii) (p : parser) : parser :=
  {| st := st p; fld := fld p ++ String c EmptyString; row := row p;
     out := out p; ws := ws p |}.

Definition end_field (p : parser) : parser :=
  {| st := st p; fld := EmptyString; row := row p ++ [fld p];
     out := out p; ws := ws p |}.

Definition end_line (p : parser) : parser :=
  {| st := START_RECORD; fld := fld p; row := []; out := out p ++ [row p];
     ws := ws p |}.

Definition is_blank (c : ascii) : bool :=
  Ascii.eqb c " " || Ascii.eqb c "009"%char.

Definition on_start_field (p : parser) (c : ascii) : parser :=
  if Ascii.eqb c lf then end_line (end_field p)
  else if Ascii.eqb c cr then set_state EAT_CRNL (end_field p)
  else if Ascii.eqb c PyStr.dquote then set_state IN_QUOTED_FIELD p
  else if Ascii.eqb c comma then set_state START_FIELD (end_field p)
  else set_state IN_FIELD (push_char c p).

Definition on_in_field (p : parser) (c : ascii) : parser :=
  if Ascii.eqb c lf then end_line (end_field p)
  else if Ascii.eqb c cr then set_state EAT_CRNL (end_field p)
  else if Ascii.eqb c comma then set_state START_FIELD (end_field p)
  else push_char c p.

Definition on_start_record (p : parser) (c : ascii) : parser :=
  if Ascii.eqb c lf then p
  else if Ascii.eqb c cr then set_state EAT_CRNL_NOP p
  else if is_blank c then
    {| st := WHITESPACE_LINE; fld := fld p; row := row p; out := out p;
       ws := String c EmptyString |}
  else on_start_field p c.

(** A line that starts with blanks is skipped if it has nothing else;
    otherwise the tokenizer goes back and reads the blanks as the start of
    a field. *)
Definition on_whitespace_line (p : parser) (c : ascii) : parser :=
  if Ascii.eqb c lf then
    {| st := START_RECORD; fld := fld p; row := row p; out := out p;
       ws := EmptyString |}
  else if Ascii.eqb c cr then
    {| st := EAT_CRNL_NOP; fld := fld p; row := row p; out := out p;
       ws := EmptyString |}
  else if is_blank c then
    {| st := WHITESPACE_LINE; fld := fld p; row := row p; out := out p;
       ws := ws p ++ String c EmptyString |}
  else
    on_in_field {| st := IN_FIELD; fld := ws p; row := row p; out := out p;
                   ws := EmptyString |} c.

Definition on_in_quoted_field (p : parser) (c : ascii) : parser :=
  if Ascii.eqb c PyStr.dquote then set_state QUOTE_IN_QUOTED_FIELD p
  else push_char c p.

Definition on_quote_in_quoted_field (p : parser) (c : ascii) : parser :=
  if Ascii.eqb c PyStr.dquote then set_state IN_QUOTED_FIELD (push_char c p)
  else if Ascii.eqb c comma then set_state START_FIELD (end_field p)
  else if Ascii.eqb c lf then end_line (end_field p)
  else if Ascii.eqb c cr then set_state EAT_CRNL (end_field p)
  else set_state IN_FIELD (push_char c p).

Definition on_eat_crnl (p : parser) (c : ascii) : parser :=
  if Ascii.eqb c lf then end_line p
  else if Ascii.eqb c comma then set_state START_FIELD (end_field (end_line p))
  else on_start_record (end_line p) c.

Definition on_eat_crnl_nop (p : parser) (c : ascii) : parser :=
  if Ascii.eqb c lf then set_state START_RECORD p
  else on_start_record (set_state START_RECORD p) c.

Definition step (p : parser) (c : ascii) : parser :=
  match st p with
  | START_RECORD => on_start_record p c
  | START_FIELD => on_start_field p c
  | IN_FIELD => on_in_field p c
  | IN_QUOTED_FIELD => on_in_quoted_field p c
  | QUOTE_IN_QUOTED_FIELD => on_quote_in_quoted_field p c
  | EAT_CRNL => on_eat_crnl p c
  | EAT_CRNL_NOP => on_eat_crnl_nop p c
  | WHITESPACE_LINE => on_whitespace_line p c
  end.

Fixpoint feed (s : string) (p : parser) : parser :=
  match s with
  | EmptyString => p
  | String c s' => feed s' (step p c)
  end.

(** The end of the text: an open quoted field is an error. *)
Definition at_eof (p : parser) : option (list (list string)) :=
  match st p with
  | START_RECORD | WHITESPACE_LINE | EAT_CRNL_NOP => Some (out p)
  | IN_QUOTED_FIELD => None
  | IN_FIELD | START_FIELD | QUOTE_IN_QUOTED_FIELD =>
      Some (out (end_line (end_field p)))
  | EAT_CRNL => Some (out (end_line p))
  end.

Definition start_of_text : parser :=
  {| st := START_RECORD; fld := EmptyString; row := []; out := [];
     ws := EmptyString |}.

Definition tokenize (text : string) : option (list (list string)) :=
  at_eof (feed text start_of_text).












Fixpoint all_some {A : Type} (l : list (option A)) : option (list A) :=
  match l with
  | [] => Some []
  | Some x :: l' => option_map (cons x) (all_some l')
  | None :: _ => None
  end.






(** A character that ends neither a field nor a line of an unquoted field. *)
Definition plain (c : ascii) : bool :=
  negb (Ascii.eqb c comma || Ascii.eqb c PyStr.dquote || Ascii.eqb c lf
        || Ascii.eqb c cr).

Definition no_cr (s : string) : Prop := PyStr.sany (Ascii.eqb cr) s = false.

(** Where the tokenizer stands when a whole field has been read. *)
Definition field_read (p : parser) (s : string) (r : list string)
  (o : list (list string)) : Prop :=
  p = mkParser START_FIELD s r o EmptyString
  \/ p = mkParser IN_FIELD s r o EmptyString
  \/ p = mkParser QUOTE_IN_QUOTED_FIELD s r o EmptyString.

(** ** Card grid *)

(** [range(start, stop, step)] for a positive step, as the list it runs
    through; [fuel] bounds the number of its elements. *)
Fixpoint range_from (fuel start stop step : nat) : list nat :=
  match fuel with
  | O => []
  | S fuel' =>
      if Nat.ltb start stop
      then start :: range_from fuel' (start + step) stop step
      else []
  end.

(** [lst[i:j]]. *)
Definition slice {A : Type} (lst : list A) (i j : nat) : list A :=
  firstn (j - i) (skipn i lst).

(** [chunks(lst, n)], the chunks it yields in order; [range] raises on a
    zero step ([None]). *)
Definition chunks {A : Type} (lst : list A) (n : nat) : option (list (list A)) :=
  match n with
  | O => None
  | S _ =>
      Some (map (fun i => slice lst i (i + n))
                (range_from (List.length lst) 0 (List.length lst) n))
  end.

(** [==] between an index label and a cell: a missing value equals nothing. *)
Definition cell_eqb (a b : cell) : bool :=
  match a, b with
  | NaN, _ | _, NaN => false
  | _, _ => if cell_eq_dec a b then true else false
  end.

Section SortBy.
Context {A : Type}.
Variable key : A -> Z.

(** [sort_values(by=..., ascending=False)] on the rows of a frame; as for
    [sort_desc], equal keys keep their order. *)
Fixpoint insert_by_desc (x : A) (l : list A) : list A :=
  match l with
  | [] => [x]
  | y :: l' => if key y <? key x then x :: l else y :: insert_by_desc x l'
  end.

Definition sort_by_desc (l : list A) : list A := fold_right insert_by_desc [] l.

End SortBy.

(** [agg[agg["Location"] == loc].sort_values(by="Ending Warehouse Balance",
    ascending=False).reset_index(drop=True)]. *)
Definition loc_frame (a : list agg_row) (loc : cell) : list agg_row :=
  sort_by_desc Balance (filter (fun r => cell_eqb (Location r) loc) a).

(** [s.replace(old, new)] for one-character [old] and [new]. *)
Definition replace_char (old new : ascii) (s : string) : string :=
  PyStr.smap (fun c => if Ascii.eqb c old then new else c) s.

(** The literal texts of the page; the pictographs and the dash are their
    UTF-8 bytes. *)
Definition no_skus_text : string := "_No SKUs for this location after filters._".

(** One line of the SKU list of a card. *)
Definition sku_line (r : agg_row) : string :=
  "- 📦 **" ++ astype_str (MSKU r) ++ "** — " ++ str_of_int (Balance r).

(** What one card shows and offers for download. *)
Record card : Type := mkCard {
  c_header : string;
  c_caption : string;
  c_csv : string;
  c_file_name : string;
  c_key : string;
  c_body : string
}.

(** The body of the [with cols[i]:] block for [loc].  [loc.replace] exists
    for text only: with another label the card raises ([None]) once its
    header is drawn.  A float64 label, which the cells carry as text, is
    outside this model of the card. *)
Definition render_card (a : list agg_row) (loc : cell) : option card :=
  let loc_df := loc_frame a loc in
  let loc_total := sum64 (map Balance loc_df) in
  match loc with
  | Str name =>
      let lines := map sku_line loc_df in
      Some {| c_header := "### 🏬 **" ++ name ++ "**";
              c_caption := "Total: **" ++ str_of_int loc_total ++ "**";
              c_csv := to_csv loc_df;
              c_file_name := replace_char " " "_" name ++ "_sellable.csv";
              c_key := "dl_" ++ name;
              c_body := match lines with
                        | [] => no_skus_text
                        | _ :: _ => PyStr.join newline lines
                        end |}
  | _ => None
  end.

(** The [for chunk in chunks(locations, 3)] loop: a row of at most three
    cards per chunk.  [None] when a card raises; what was drawn before is
    not kept. *)
Definition card_grid (a : list agg_row) (locs : list cell) : option (list (list card)) :=
  match chunks locs 3 with
  | None => None
  | Some rows_of_locs =>
      all_some (map (fun chunk => all_some (map (render_card a) chunk)) rows_of_locs)
  end.

(** ** PDF report *)

Section GroupFrames.
Context {K A : Type}.
Variable compare : K -> K -> comparison.
Variable has_na : K -> bool.
Variable key : A -> K.

(** One more row for the group of [k]; groups in key order, rows in the
    order of the frame. *)
Fixpoint group_insert (k : K) (x : A) (g : list (K * list A)) : list (K * list A) :=
  match g with
  | [] => [(k, [x])]
  | (k', xs) :: g' =>
      match compare k k' with
      | Eq => (k', (xs ++ [x])%list) :: g'
      | Lt => (k, [x]) :: g
      | Gt => (k', xs) :: group_insert k x g'
      end
  end.

(** Iterating [df.groupby(key)]: the pairs of a key and its sub-frame. *)
Definition groupby_frames (frame : list A) : list (K * list A) :=
  fold_left (fun g x => if has_na (key x) then g else group_insert (key x) x g)
            frame [].

(** The rows filed under [k], in the order of the frame. *)
Definition rows_at (k : K) (frame : list A) : list A :=
  filter (fun x => negb (has_na (key x)) && is_eq (compare (key x) k)) frame.

(** The sub-frame recorded for a key, if it has a group. *)
Fixpoint group_frame (k : K) (g : list (K * list A)) : option (list A) :=
  match g with
  | [] => None
  | (k', xs) :: g' => if is_eq (compare k k') then Some xs else group_frame k g'
  end.

End GroupFrames.

(** A command of a reportlab [TableStyle]: name, first and last cell,
    arguments. *)
Record style_command : Type := mkStyle {
  command : string;
  first_cell : Z * Z;
  last_cell : Z * Z;
  arguments : list string
}.

Inductive flowable : Type :=
| Paragraph (text style : string)
| Spacer (width height : Z)
| Table (data : list (list cell)) (colWidths : list Z) (style : list style_command).

Definition report_table_style : list style_command :=
  [ mkStyle "BACKGROUND" (0, 0) (-1, 0) ["lightgrey"];
    mkStyle "TEXTCOLOR" (0, 0) (-1, 0) ["black"];
    mkStyle "ALIGN" (1, 1) (-1, -1) ["CENTER"];
    mkStyle "FONTNAME" (0, 0) (-1, 0) ["Helvetica-Bold"];
    mkStyle "BOTTOMPADDING" (0, 0) (-1, 0) ["6"];
    mkStyle "GRID" (0, 0) (-1, -1) ["0.5"; "grey"] ].

(** [data] of one location: the header row, then a row per row of [loc_df]. *)
Definition table_data (loc_df : list agg_row) : list (list cell) :=
  [Str "MSKU"; Str "Ending Warehouse Balance"]
  :: map (fun r => [MSKU r; Int (Balance r)]) loc_df.

(** The three elements appended for one [location, loc_df] of the group-by. *)
Definition pdf_section (group : cell * list agg_row) : list flowable :=
  [ Paragraph ("🏬 " ++ astype_str (fst group)) "WarehouseTitle";
    Table (table_data (snd group)) [300; 100] report_table_style;
    Spacer 1 12 ].

(** [generate_pdf_report(df, timestamp)], as the list [elements] it hands
    to [doc.build]; the layout of the pages by reportlab is not modelled. *)
Definition generate_pdf_report (df : list agg_row) (timestamp : string) : list flowable :=
  ([ Paragraph "Amazon Warehouse Stock Report" "Title";
     Paragraph ("Generated on: " ++ timestamp) "Normal";
     Spacer 1 12 ]
   ++ flat_map pdf_section (groupby_frames cell_compare isna Location df))%list.

(** The balances that go into the aggregate row of a location and an
    MSKU: those of the rows with that MSKU and, once filled, that location. *)
Definition contributions (loc msku : cell) (sellable : list record) : list Z :=
  map r_balance
      (filter (fun r => cell_eqb (fillna_unknown (r_location r)) loc
                        && cell_eqb (r_msku r) msku) sellable).


(** ** Sample inputs *)

(** The three MSKUs of the filter scenario, in two warehouses. *)
Definition agg_three : list agg_row :=
  [ mkAgg (Str "BLR7") (Str "ABC-1") 4;
    mkAgg (Str "BLR7") (Str "XYZ-2") 10;
    mkAgg (Str "DEL4") (Str "ABC-3") 6 ].

Definition ledger_header : list string :=
  ["Location"; "MSKU"; "Disposition"; "Ending Warehouse Balance"].

(** Two sellable rows, the second without an MSKU. *)
Definition ledger_null_msku : DataFrame :=
  mkFrame ledger_header
    [ [Str "A"; Str "X"; Str "SELLABLE"; Int 5];
      [Str "A"; NaN; Str "SELLABLE"; Int 7] ].

(** The aggregation scenario of the specification, and a damaged row. *)
Definition ledger_basic : DataFrame :=
  mkFrame ledger_header
    [ [Str "A"; Str "X"; Str "SELLABLE"; Int 3];
      [Str "A"; Str "X"; Str "Sellable"; Int 2];
      [Str "B"; Str "Y"; Str "DAMAGED"; Int 9] ].



(** * Properties *)

(** A fact about one character, settled by running through the 256 of them. *)
Ltac by_ascii_cases c :=
  destruct c as [[] [] [] [] [] [] [] []]; vm_compute; congruence.

(** ** Column resolver *)

Lemma dict_get_set {V : Type} (k k' : string) (v : V) (d : PyDict.dict) :
  PyDict.get k (PyDict.set k' v d) =
  if String.eqb k' k then Some v else PyDict.get k d.
Proof.
  induction d as [|[k0 v0] d IH]; simpl.
  - reflexivity.
  - destruct (String.eqb k0 k') eqn:E; simpl.
    + apply String.eqb_eq in E; subst k0.
      destruct (String.eqb k' k); reflexivity.
    + destruct (String.eqb k0 k) eqn:E2.
      * apply String.eqb_eq in E2; subst k0.
        rewrite String.eqb_sym, E. reflexivity.
      * exact IH.
Qed.

Lemma find_snoc {A : Type} (p : A -> bool) (l : list A) (x : A) :
  find p (l ++ [x]) =
  match find p l with Some y => Some y | None => if p x then Some x else None end.
Proof.
  induction l as [|a l IH]; simpl.
  - reflexivity.
  - destruct (p a); [reflexivity | exact IH].
Qed.

Lemma column_mapping_get (k : string) (cols : list string) (m : PyDict.dict) :
  PyDict.get k
    (fold_left (fun m c => PyDict.set (PyStr.lower (PyStr.strip c)) c m) cols m) =
  match find (fun c => String.eqb (PyStr.lower (PyStr.strip c)) k) (rev cols) with
  | Some c => Some c
  | None => PyDict.get k m
  end.
Proof.
  revert m; induction cols as [|c cols IH]; intro m; simpl.
  - reflexivity.
  - rewrite IH, find_snoc, dict_get_set.
    destruct (find _ (rev cols)); [reflexivity|].
    destruct (String.eqb _ k); reflexivity.
Qed.

(** The mapping keeps, for each normalized name, the last header that has it. *)
Lemma find_column_last (cols : list string) (d : string) :
  _find_column_by_name cols d = find (fun c => same_nameb c d) (rev cols).
Proof.
  unfold _find_column_by_name, column_mapping, same_nameb.
  rewrite column_mapping_get.
  destruct (find _ (rev cols)); reflexivity.
Qed.

Lemma same_nameb_iff (a b : string) : same_nameb a b = true <-> same_name a b.
Proof. apply String.eqb_eq. Qed.

Lemma find_column_some (cols : list string) (d c : string) :
  _find_column_by_name cols d = Some c -> In c cols /\ same_name c d.
Proof.
  rewrite find_column_last. intro H.
  apply find_some in H. destruct H as [Hin Hb].
  split; [apply in_rev, Hin | apply same_nameb_iff, Hb].
Qed.

Lemma find_column_none (cols : list string) (d : string) :
  _find_column_by_name cols d = None <->
  (forall c, In c cols -> ~ same_name c d).
Proof.
  rewrite find_column_last. split.
  - intros H c Hin Hs.
    apply in_rev in Hin.
    pose proof (find_none _ _ H c Hin) as Hf. simpl in Hf.
    apply same_nameb_iff in Hs. congruence.
  - intro H. destruct (find _ (rev cols)) as [c|] eqn:E; [|reflexivity].
    apply find_some in E. destruct E as [Hin Hb].
    exfalso. apply (H c); [apply in_rev, Hin | apply same_nameb_iff, Hb].
Qed.

Lemma find_column_exists (cols : list string) (d : string) :
  (exists c, _find_column_by_name cols d = Some c) <->
  (exists c, In c cols /\ same_name c d).
Proof.
  split.
  - intros [c H]. exists c. now apply find_column_some.
  - intros [c [Hin Hs]].
    destruct (_find_column_by_name cols d) as [c'|] eqn:E.
    + now exists c'.
    + exfalso. exact (proj1 (find_column_none cols d) E c Hin Hs).
Qed.

Lemma found_entries (cols : list string) :
  found cols =
  [ ("msku", resolve cols "msku" "MSKU");
    ("disposition", resolve cols "disposition" "Disposition");
    ("balance", resolve cols "balance" "Ending Warehouse Balance");
    ("location", resolve cols "location" "Location") ].
Proof. reflexivity. Qed.

(** C6. A header is found for a desired name exactly when some header equals
    it up to case and surrounding whitespace; each of the four fields is
    looked up under its display name first and under its short key
    otherwise; the headers [" msku "], ["MSKU"] and ["Msku"] all resolve
    the msku field. *)
Theorem column_resolution_by_name (cols : list string) :
  (forall d, (exists c, _find_column_by_name cols d = Some c) <->
             (exists c, In c cols /\ same_name c d))
  /\ (forall key pretty, In (key, pretty) required ->
        PyDict.get key (found cols) = Some (resolve cols key pretty))
  /\ (forall key pretty c, resolve cols key pretty = Some c ->
        In c cols /\
        (same_name c pretty \/
         (same_name c key /\ forall c', In c' cols -> ~ same_name c' pretty)))
  /\ (forall key pretty, resolve cols key pretty = None <->
        (forall c, In c cols -> ~ same_name c pretty /\ ~ same_name c key))
  /\ Forall (fun h => resolve (strip_columns [h]) "msku" "MSKU" = Some (PyStr.strip h))
            [" msku "; "MSKU"; "Msku"].
Proof.
  split; [exact (find_column_exists cols)|].
  split.
  { intros key pretty Hin. rewrite found_entries.
    simpl in Hin.
    destruct Hin as [H|[H|[H|[H|[]]]]]; inversion H; subst; reflexivity. }
  split.
  { intros key pretty c. unfold resolve.
    destruct (_find_column_by_name cols pretty) as [c0|] eqn:E.
    - intros [= <-]. apply find_column_some in E. tauto.
    - intro H. apply find_column_some in H. destruct H as [Hin Hs].
      split; [exact Hin|]. right. split; [exact Hs|].
      exact (proj1 (find_column_none cols pretty) E). }
  split.
  { intros key pretty. unfold resolve. split.
    - destruct (_find_column_by_name cols pretty) eqn:E; [discriminate|].
      intros H c Hin. split.
      + exact (proj1 (find_column_none cols pretty) E c Hin).
      + exact (proj1 (find_column_none cols key) H c Hin).
    - intro H.
      assert (E : _find_column_by_name cols pretty = None).
      { apply find_column_none. intros c Hin. exact (proj1 (H c Hin)). }
      rewrite E. apply find_column_none. intros c Hin. exact (proj2 (H c Hin)). }
  repeat constructor.
Qed.

(** ** Schema error *)

Lemma missing_nil_all_resolved (cols : list string) :
  missing (found cols) = [] ->
  forall key pretty, In (key, pretty) required -> resolve cols key pretty <> None.
Proof.
  rewrite found_entries. unfold missing. simpl.
  intros H key pretty Hin.
  destruct Hin as [E|[E|[E|[E|[]]]]]; inversion E; subst; clear E; intro R;
    rewrite R in H;
    repeat match type of H with
           | context [match ?r with Some _ => _ | None => _ end] => destruct r
           end; simpl in H; discriminate.
Qed.

(** C3 (as amended). When one of the four fields is not resolved against
    the trimmed headers, the script stops on a schema error; its message is a
    fixed line that names all four required columns, whichever of them are
    missing, followed by the list of the trimmed headers. *)
Theorem schema_error_message (df : DataFrame) :
  (exists key pretty, In (key, pretty) required /\
                      resolve (strip_columns (columns df)) key pretty = None) ->
  main df = SchemaError (schema_message (strip_columns (columns df)))
  /\ schema_message (strip_columns (columns df)) =
       required_line ++ newline ++ "Found: "
       ++ PyStr.repr_list (strip_columns (columns df))
  /\ (forall key pretty, In (key, pretty) required ->
        PyStr.contains pretty required_line = true).
Proof.
  intros [key [pretty [Hin Hnone]]].
  split; [|split].
  - unfold main.
    destruct (missing (found (strip_columns (columns df)))) eqn:E; [|reflexivity].
    exfalso. exact (missing_nil_all_resolved _ E key pretty Hin Hnone).
  - reflexivity.
  - intros k p H. simpl in H.
    destruct H as [E|[E|[E|[E|[]]]]]; inversion E; subst; reflexivity.
Qed.

Lemma schema_error_message_witness :
  (exists key pretty, In (key, pretty) required /\
     resolve (strip_columns (columns (mkFrame ["SKU"; "Disposition"; "Balance"] [])))
             key pretty = None)
  /\ main (mkFrame ["SKU"; "Disposition"; "Balance"] []) =
       SchemaError (schema_message ["SKU"; "Disposition"; "Balance"])
  /\ schema_message ["SKU"; "Disposition"; "Balance"] =
       required_line ++ newline ++ "Found: ['SKU', 'Disposition', 'Balance']".
Proof.
  assert (H : exists key pretty, In (key, pretty) required /\
     resolve (strip_columns (columns (mkFrame ["SKU"; "Disposition"; "Balance"] [])))
             key pretty = None).
  { exists "location", "Location". split; [simpl; tauto | reflexivity]. }
  split; [exact H|].
  destruct (schema_error_message (mkFrame ["SKU"; "Disposition"; "Balance"] []) H)
    as [H1 [H2 _]].
  split; [exact H1 | exact H2].
Defined.

(** C3 (as stated) fails on the headers SKU, Disposition, Balance: the fields
    msku and location are missing, disposition is resolved, and the message
    names Disposition all the same. *)
Lemma schema_message_names_resolved_field :
  main (mkFrame ["SKU"; "Disposition"; "Balance"] []) =
    SchemaError (schema_message ["SKU"; "Disposition"; "Balance"])
  /\ ~ names_the_missing_fields ["SKU"; "Disposition"; "Balance"] required_line.
Proof.
  split; [reflexivity|].
  intro H.
  assert (Hin : In ("disposition", "Disposition") required) by (simpl; tauto).
  destruct (H _ _ Hin) as [H1 _].
  specialize (H1 eq_refl). discriminate H1.
Qed.

(** ** 64-bit sums *)

Lemma wrap64_add_l (a b : Z) : wrap64 (wrap64 a + b) = wrap64 (a + b).
Proof.
  unfold wrap64. f_equal.
  replace ((a + 2 ^ 63) mod 2 ^ 64 - 2 ^ 63 + b + 2 ^ 63)
    with ((a + 2 ^ 63) mod 2 ^ 64 + b) by ring.
  rewrite Z.add_mod_idemp_l by lia. f_equal. ring.
Qed.

Lemma wrap64_add_r (a b : Z) : wrap64 (a + wrap64 b) = wrap64 (a + b).
Proof. rewrite Z.add_comm, wrap64_add_l. f_equal. ring. Qed.

Lemma wrap64_idem (a : Z) : wrap64 (wrap64 a) = wrap64 a.
Proof.
  replace (wrap64 a) with (wrap64 a + 0) at 1 by ring.
  rewrite wrap64_add_l. f_equal. ring.
Qed.

Lemma wrap64_small (a : Z) : - 2 ^ 63 <= a < 2 ^ 63 -> wrap64 a = a.
Proof. intro H. unfold wrap64. rewrite Z.mod_small; lia. Qed.

Lemma fold_add64 (l : list Z) (a : Z) :
  fold_left add64 l (wrap64 a) = wrap64 (a + zsum l).
Proof.
  revert a; induction l as [|b l IH]; intro a; simpl.
  - f_equal. ring.
  - unfold add64 at 2. rewrite wrap64_add_l, IH. f_equal. ring.
Qed.

Lemma sum64_wrap (l : list Z) : sum64 l = wrap64 (zsum l).
Proof. unfold sum64. change 0 with (wrap64 0) at 1. apply fold_add64. Qed.

Section GroupByFacts.
Context {K : Type}.
Variable compare : K -> K -> comparison.
Variable has_na : K -> bool.

Lemma group_add_sum (k : K) (b : Z) (g : list (K * Z)) :
  wrap64 (zsum (map snd (group_add compare k b g))) =
  wrap64 (zsum (map snd g) + b).
Proof.
  induction g as [|[k' t] g IH]; simpl.
  - unfold add64. rewrite wrap64_add_l. f_equal. ring.
  - destruct (compare k k'); simpl; unfold add64.
    + rewrite wrap64_add_l. f_equal. ring.
    + rewrite wrap64_add_l. f_equal. ring.
    + rewrite <- wrap64_add_r, IH, wrap64_add_r. f_equal. ring.
Qed.

Lemma groupby_fold_sum (items g : list (K * Z)) :
  wrap64 (zsum (map snd
    (fold_left (fun g kb => if has_na (fst kb) then g
                            else group_add compare (fst kb) (snd kb) g) items g))) =
  wrap64 (zsum (map snd g) + zsum (map snd (keyed has_na items))).
Proof.
  revert g; induction items as [|[k b] items IH]; intro g; simpl.
  - f_equal. ring.
  - rewrite IH. destruct (has_na k); simpl; [reflexivity|].
    rewrite <- wrap64_add_l, group_add_sum, wrap64_add_l. f_equal. ring.
Qed.

(** The group totals add up to the sum of the values whose key is present. *)
Lemma groupby_sum_total (items : list (K * Z)) :
  sum64 (map snd (groupby_sum compare has_na items)) =
  sum64 (map snd (keyed has_na items)).
Proof.
  rewrite !sum64_wrap. unfold groupby_sum. now rewrite groupby_fold_sum.
Qed.

Lemma groupby_fold_keyed (items g : list (K * Z)) :
  fold_left (fun g kb => if has_na (fst kb) then g
                         else group_add compare (fst kb) (snd kb) g) items g =
  fold_left (fun g kb => if has_na (fst kb) then g
                         else group_add compare (fst kb) (snd kb) g) (keyed has_na items) g.
Proof.
  revert g; induction items as [|[k b] items IH]; intro g; simpl.
  - reflexivity.
  - destruct (has_na k) eqn:E; simpl; [apply IH|].
    rewrite E. apply IH.
Qed.

(** Rows with a missing key do not reach any group. *)
Lemma groupby_sum_keyed (items : list (K * Z)) :
  groupby_sum compare has_na items = groupby_sum compare has_na (keyed has_na items).
Proof. apply groupby_fold_keyed. Qed.

Lemma group_add_keys (P : K -> Prop) (k : K) (b : Z) (g : list (K * Z)) :
  P k -> Forall (fun kt => P (fst kt)) g ->
  Forall (fun kt => P (fst kt)) (group_add compare k b g).
Proof.
  intros Hk. induction g as [|[k' t] g IH]; simpl; intro Hg.
  - repeat constructor. exact Hk.
  - inversion Hg; subst.
    destruct (compare k k'); constructor; auto.
Qed.

Lemma groupby_sum_no_na (items : list (K * Z)) :
  Forall (fun kt => has_na (fst kt) = false) (groupby_sum compare has_na items).
Proof.
  unfold groupby_sum.
  enough (H : forall g, Forall (fun kt => has_na (fst kt) = false) g ->
    Forall (fun kt => has_na (fst kt) = false)
      (fold_left (fun g kb => if has_na (fst kb) then g
                              else group_add compare (fst kb) (snd kb) g) items g))
    by (apply H; constructor).
  induction items as [|[k b] items IH]; intros g Hg; simpl.
  - exact Hg.
  - apply IH. destruct (has_na k) eqn:E; [exact Hg|].
    apply (group_add_keys (fun k => has_na k = false)); assumption.
Qed.

End GroupByFacts.

Lemma filter_map_comm {A B : Type} (p : B -> bool) (f : A -> B) (l : list A) :
  filter p (map f l) = map f (filter (fun x => p (f x)) l).
Proof.
  induction l as [|a l IH]; simpl; [reflexivity|].
  destruct (p (f a)); simpl; now rewrite IH.
Qed.

Lemma filter_filter {A : Type} (p q : A -> bool) (l : list A) :
  filter p (filter q l) = filter (fun x => q x && p x) l.
Proof.
  induction l as [|a l IH]; simpl; [reflexivity|].
  destruct (q a); simpl; [destruct (p a); simpl|]; now rewrite IH.
Qed.

Lemma fillna_unknown_not_na (c : cell) : isna (fillna_unknown c) = false.
Proof. destruct c; reflexivity. Qed.

Lemma keyed_group_items (l : list record) :
  keyed key_has_na (group_items l) =
  group_items (filter (fun r => negb (isna (r_msku r))) l).
Proof.
  unfold keyed, group_items. rewrite filter_map_comm. f_equal.
  apply filter_ext. intro r. unfold key_has_na. simpl.
  now rewrite fillna_unknown_not_na.
Qed.

Lemma aggregate_balances (l : list record) :
  map Balance (aggregate l) =
  map snd (groupby_sum key_compare key_has_na (group_items l)).
Proof. unfold aggregate. rewrite map_map. reflexivity. Qed.

Lemma aggregate_total (l : list record) :
  sum64 (map Balance (aggregate l)) =
  sum64 (map r_balance (filter (fun r => negb (isna (r_msku r))) l)).
Proof.
  rewrite aggregate_balances, groupby_sum_total, keyed_group_items.
  unfold group_items. rewrite map_map. reflexivity.
Qed.

Lemma df_sellable_normalized (loc msku disp bal : list cell -> cell) (rs : list (list cell)) :
  df_sellable (normalized loc msku disp bal rs) =
  normalized loc msku disp bal
    (filter (fun row => String.eqb (normalize_disposition (disp row)) "SELLABLE") rs).
Proof. unfold df_sellable, normalized. now rewrite filter_map_comm. Qed.

(** What the script shows is the report of the sellable input records. *)
Lemma main_shown (df : DataFrame) (r : report) :
  main df = Shown r ->
  exists recs, input_records df = Some recs /\
               r = report_of (aggregate (df_sellable recs)).
Proof.
  unfold main, input_records.
  destruct (missing _); [|discriminate].
  destruct (lookup _ "msku") as [msku_col|]; [|discriminate].
  destruct (lookup _ "disposition") as [disp_col|]; [|discriminate].
  destruct (lookup _ "balance") as [bal_col|]; [|discriminate].
  destruct (lookup _ "location") as [loc_col|]; [|discriminate].
  destruct (series _ bal_col) as [bal|]; [|discriminate].
  destruct (series _ disp_col) as [disp|]; [|discriminate].
  destruct (filter _ (rows df)) as [|row sel] eqn:E; [discriminate|].
  destruct (series _ loc_col) as [loc|]; [|discriminate].
  destruct (series _ msku_col) as [msku|]; [|discriminate].
  intros [= <-]. eexists. split; [reflexivity|].
  now rewrite df_sellable_normalized, E.
Qed.

(** ** Aggregator *)

(** C1 (as amended). When the script shows a report, the balances of its
    aggregate add up, in the 64-bit arithmetic of the balance column, to the
    sum of the normalized balances of the input rows whose normalized
    disposition is exactly SELLABLE and whose MSKU cell is not null. *)
Theorem sum_invariant (df : DataFrame) (r : report) :
  main df = Shown r ->
  exists recs,
    input_records df = Some recs
    /\ agg r = aggregate (df_sellable recs)
    /\ grand_total r = sum64 (map Balance (agg r))
    /\ sum64 (map Balance (agg r)) =
       sum64 (map r_balance
                (filter (fun x => is_sellable x && negb (isna (r_msku x))) recs)).
Proof.
  intro H. apply main_shown in H. destruct H as [recs [Hrecs ->]].
  exists recs. simpl. repeat split; try assumption.
  rewrite aggregate_total. unfold df_sellable. now rewrite filter_filter.
Qed.

Lemma sum_invariant_witness :
  main ledger_basic = Shown (report_of [mkAgg (Str "A") (Str "X") 5])
  /\ exists recs,
       input_records ledger_basic = Some recs
       /\ sum64 (map Balance (aggregate (df_sellable recs))) = 5
       /\ sum64 (map r_balance
                   (filter (fun x => is_sellable x && negb (isna (r_msku x))) recs)) = 5.
Proof.
  split; [reflexivity|].
  destruct (sum_invariant ledger_basic
              (report_of [mkAgg (Str "A") (Str "X") 5]) eq_refl)
    as [recs [H1 [H2 [_ H4]]]].
  exists recs. split; [exact H1|]. simpl in H2. rewrite <- H2.
  split; [reflexivity|]. rewrite <- H4. reflexivity.
Defined.

(** C1 (as stated) fails when a sellable row has no MSKU: the aggregate
    totals 5 while the sellable rows total 12. *)
Lemma sum_invariant_fails_on_null_msku :
  exists r recs,
    main ledger_null_msku = Shown r
    /\ input_records ledger_null_msku = Some recs
    /\ sum64 (map Balance (agg r)) = 5
    /\ sum64 (map r_balance (df_sellable recs)) = 12
    /\ sum64 (map Balance (agg r)) <> sum64 (map r_balance (df_sellable recs)).
Proof.
  eexists. eexists.
  split; [reflexivity|]. split; [reflexivity|].
  split; [reflexivity|]. split; [reflexivity|].
  vm_compute. discriminate.
Qed.

Lemma aggregate_keyed (l : list record) :
  aggregate l = aggregate (filter (fun r => negb (isna (r_msku r))) l).
Proof.
  unfold aggregate. now rewrite groupby_sum_keyed, keyed_group_items.
Qed.

Lemma df_sellable_filter_comm (p : record -> bool) (l : list record) :
  filter p (df_sellable l) = df_sellable (filter p l).
Proof.
  unfold df_sellable. rewrite !filter_filter.
  apply filter_ext. intro r. apply andb_comm.
Qed.

Lemma isna_false (c : cell) : isna c = false -> c <> NaN.
Proof. destruct c; simpl; congruence. Qed.

(** C9. Sellable rows without an MSKU leave no trace: the report, with its
    aggregate, per-location totals and grand total, is the one obtained
    without them, and no row of the aggregate has a null MSKU. *)
Theorem null_msku_rows_dropped (recs : list record) :
  aggregate (df_sellable recs) =
    aggregate (df_sellable (filter (fun r => negb (isna (r_msku r))) recs))
  /\ report_of (aggregate (df_sellable recs)) =
       report_of (aggregate (df_sellable (filter (fun r => negb (isna (r_msku r))) recs)))
  /\ Forall (fun a => MSKU a <> NaN) (aggregate (df_sellable recs))
  /\ (forall loc bal,
        aggregate (df_sellable (mkRecord loc NaN "SELLABLE" bal :: recs)) =
        aggregate (df_sellable recs)).
Proof.
  assert (E : aggregate (df_sellable recs) =
    aggregate (df_sellable (filter (fun r => negb (isna (r_msku r))) recs))).
  { rewrite aggregate_keyed, df_sellable_filter_comm. reflexivity. }
  split; [exact E|]. split; [now rewrite <- E|]. split.
  - unfold aggregate. apply Forall_map.
    eapply Forall_impl; [|apply groupby_sum_no_na].
    intros [[l m] t]. unfold key_has_na. simpl. intro H.
    apply isna_false. apply orb_false_iff in H. tauto.
  - intros loc bal.
    rewrite (aggregate_keyed (df_sellable (_ :: recs))).
    rewrite (aggregate_keyed (df_sellable recs)).
    reflexivity.
Qed.

(** C10. The text cast turns a missing disposition into the text nan, which
    the normalizer makes NAN; it is not SELLABLE, so no row with a missing
    disposition is among the sellable ones, and the sellable rows are the
    same without such a row. *)
Theorem null_disposition_excluded :
  astype_str NaN = "nan"
  /\ normalize_disposition NaN = "NAN"
  /\ (forall loc msku bal,
        is_sellable (mkRecord loc msku (normalize_disposition NaN) bal) = false)
  /\ (forall recs r,
        In r (df_sellable recs) -> r_disposition r <> normalize_disposition NaN)
  /\ (forall recs loc msku bal,
        df_sellable (mkRecord loc msku (normalize_disposition NaN) bal :: recs) =
        df_sellable recs).
Proof.
  split; [reflexivity|].
  split; [reflexivity|]. split; [reflexivity|]. split; [|reflexivity].
  intros recs r Hin. apply filter_In in Hin. destruct Hin as [_ Hs].
  unfold is_sellable in Hs. apply String.eqb_eq in Hs. rewrite Hs. discriminate.
Qed.

(** ** Text lemmas *)

Lemma isspace_upper_char (c : ascii) :
  PyStr.isspace (PyStr.upper_char c) = PyStr.isspace c.
Proof. by_ascii_cases c. Qed.

Lemma upper_char_idem (c : ascii) :
  PyStr.upper_char (PyStr.upper_char c) = PyStr.upper_char c.
Proof. by_ascii_cases c. Qed.

Lemma digit_not_minus (c : ascii) :
  PyStr.isdigit c = true -> Ascii.eqb c "-" = false.
Proof. by_ascii_cases c. Qed.

Lemma digit_is_numeric (c : ascii) :
  PyStr.isdigit c = true -> numeric_char c = true.
Proof. intro H. unfold numeric_char. now rewrite H. Qed.

Lemma numeric_not_comma (c : ascii) :
  numeric_char c = true -> negb (Ascii.eqb c ",") = true.
Proof. by_ascii_cases c. Qed.

Section Smap.
Variable f : ascii -> ascii.
Hypothesis f_space : forall c, PyStr.isspace (f c) = PyStr.isspace c.

Lemma lstrip_smap (s : string) :
  PyStr.lstrip (PyStr.smap f s) = PyStr.smap f (PyStr.lstrip s).
Proof.
  induction s as [|c s IH]; simpl; [reflexivity|].
  rewrite f_space. destruct (PyStr.isspace c); [exact IH | reflexivity].
Qed.

Lemma rstrip_smap (s : string) :
  PyStr.rstrip (PyStr.smap f s) = PyStr.smap f (PyStr.rstrip s).
Proof.
  induction s as [|c s IH]; simpl; [reflexivity|].
  rewrite IH, f_space.
  destruct (PyStr.rstrip s); simpl; [destruct (PyStr.isspace c)|]; reflexivity.
Qed.

Lemma strip_smap (s : string) :
  PyStr.strip (PyStr.smap f s) = PyStr.smap f (PyStr.strip s).
Proof. unfold PyStr.strip. now rewrite lstrip_smap, rstrip_smap. Qed.

End Smap.

Lemma smap_idem (f : ascii -> ascii) (s : string) :
  (forall c, f (f c) = f c) -> PyStr.smap f (PyStr.smap f s) = PyStr.smap f s.
Proof. intro H. induction s as [|c s IH]; simpl; [reflexivity|]. now rewrite H, IH. Qed.

Lemma rstrip_idem (s : string) : PyStr.rstrip (PyStr.rstrip s) = PyStr.rstrip s.
Proof.
  induction s as [|c s IH]; simpl; [reflexivity|].
  destruct (PyStr.rstrip s) as [|a r] eqn:E.
  - destruct (PyStr.isspace c) eqn:Ec; simpl; [reflexivity|]. now rewrite Ec.
  - change (PyStr.rstrip (String c (String a r))) with
      (match PyStr.rstrip (String a r) with
       | EmptyString =>
           if PyStr.isspace c then EmptyString else String c EmptyString
       | String x y => String c (String x y)
       end).
    rewrite IH. reflexivity.
Qed.

Lemma lstrip_head (s : string) :
  PyStr.lstrip s = EmptyString \/
  exists c t, PyStr.lstrip s = String c t /\ PyStr.isspace c = false.
Proof.
  induction s as [|c s IH]; simpl; [now left|].
  destruct (PyStr.isspace c) eqn:E; [exact IH|]. right. now exists c, s.
Qed.

Lemma lstrip_rstrip_lstrip (s : string) :
  PyStr.lstrip (PyStr.rstrip (PyStr.lstrip s)) = PyStr.rstrip (PyStr.lstrip s).
Proof.
  destruct (lstrip_head s) as [E|[c [t [E Hc]]]]; rewrite E; [reflexivity|].
  simpl. destruct (PyStr.rstrip t); rewrite ?Hc; simpl; now rewrite Hc.
Qed.

Lemma strip_idem (s : string) : PyStr.strip (PyStr.strip s) = PyStr.strip s.
Proof.
  unfold PyStr.strip. now rewrite lstrip_rstrip_lstrip, rstrip_idem.
Qed.

Lemma normalize_disposition_idem (c : cell) :
  normalize_disposition (Str (normalize_disposition c)) = normalize_disposition c.
Proof.
  unfold normalize_disposition. simpl. unfold PyStr.upper.
  rewrite (strip_smap _ isspace_upper_char), strip_idem.
  apply smap_idem, upper_char_idem.
Qed.

Lemma keep_all (p q : ascii -> bool) (s : string) :
  (forall c, q c = true -> p c = true) ->
  PyStr.sall q s = true -> PyStr.keep p s = s.
Proof.
  intro H. induction s as [|c s IH]; simpl; [reflexivity|].
  intro Hs. apply andb_true_iff in Hs. destruct Hs as [Hc Hs].
  now rewrite (H c Hc), IH.
Qed.





(** ** Printing and reading integers *)

Lemma uint_digits (d : Decimal.uint) :
  PyStr.sall PyStr.isdigit (NilEmpty.string_of_uint d) = true.
Proof. induction d; simpl; auto. Qed.

Lemma take_digits_all (s : string) :
  PyStr.sall PyStr.isdigit s = true -> take_digits s = (s, EmptyString).
Proof.
  induction s as [|c s IH]; simpl; [reflexivity|].
  intro H. apply andb_true_iff in H. destruct H as [Hc Hs].
  now rewrite Hc, (IH Hs).
Qed.

Lemma digits_value_acc (d : Decimal.uint) (acc : positive) :
  digits_value (Z.pos acc) (NilEmpty.string_of_uint d) =
  Z.pos (Pos.of_uint_acc d acc).
Proof.
  revert acc; induction d; intro acc; [reflexivity|..];
    cbn [NilEmpty.string_of_uint digits_value Pos.of_uint_acc];
    rewrite <- IHd; f_equal;
    match goal with |- context [digit_value ?c] => set (x := digit_value c) end;
    vm_compute in x; subst x; lia.
Qed.

Lemma digits_value_uint (d : Decimal.uint) :
  digits_value 0 (NilEmpty.string_of_uint d) = Z.of_N (Pos.of_uint d).
Proof.
  induction d; [reflexivity | exact IHd | ..];
    cbn [NilEmpty.string_of_uint digits_value Pos.of_uint Z.of_N];
    apply (digits_value_acc d).
Qed.

Lemma uint_nonempty (d : Decimal.uint) :
  d <> Decimal.Nil -> is_empty (NilEmpty.string_of_uint d) = false.
Proof. destruct d; simpl; congruence. Qed.

Lemma parse_unsigned_digits (s : string) :
  PyStr.sall PyStr.isdigit s = true -> is_empty s = false ->
  parse_unsigned s = Some (digits_value 0 s # 1).
Proof.
  intros Hd He. unfold parse_unsigned.
  rewrite (take_digits_all s Hd). now rewrite He.
Qed.

Lemma to_numeric_digits (s : string) :
  PyStr.sall PyStr.isdigit s = true -> is_empty s = false ->
  to_numeric s = Some (digits_value 0 s # 1).
Proof.
  intros Hd He. destruct s as [|c s]; [discriminate|].
  unfold to_numeric.
  assert (Hc : PyStr.isdigit c = true).
  { simpl in Hd. apply andb_true_iff in Hd. tauto. }
  rewrite (digit_not_minus c Hc). now apply parse_unsigned_digits.
Qed.

Lemma str_of_pos (p : positive) :
  str_of_int (Z.pos p) = NilEmpty.string_of_uint (Pos.to_uint p).
Proof.
  unfold str_of_int. simpl. unfold NilZero.string_of_uint.
  pose proof (Unsigned.to_uint_nonnil p) as H.
  destruct (Pos.to_uint p); congruence.
Qed.

Lemma str_of_neg (p : positive) :
  str_of_int (Z.neg p) = String "-" (NilEmpty.string_of_uint (Pos.to_uint p)).
Proof.
  unfold str_of_int. simpl. unfold NilZero.string_of_uint.
  pose proof (Unsigned.to_uint_nonnil p) as H.
  destruct (Pos.to_uint p); congruence.
Qed.

Lemma clean_digits (s : string) :
  PyStr.sall PyStr.isdigit s = true ->
  remove_non_numeric (remove_commas s) = s.
Proof.
  intro H. unfold remove_non_numeric, remove_commas, PyStr.remove_char.
  rewrite (keep_all (fun c => negb (Ascii.eqb c ",")) PyStr.isdigit s
             (fun c Hc => numeric_not_comma c (digit_is_numeric c Hc)) H).
  exact (keep_all numeric_char PyStr.isdigit s digit_is_numeric H).
Qed.

(** A balance that is already an integer goes through the cleaning unchanged. *)
Lemma normalize_balance_int (z : Z) : normalize_balance (Int z) = z.
Proof.
  unfold normalize_balance, clean_balance_text. simpl astype_str.
  destruct z as [|p|p].
  - reflexivity.
  - rewrite str_of_pos, (clean_digits _ (uint_digits _)).
    rewrite to_numeric_digits;
      [|apply uint_digits | apply uint_nonempty, Unsigned.to_uint_nonnil].
    rewrite digits_value_uint, Unsigned.of_to. simpl.
    unfold astype_int. simpl. apply Z.quot_1_r.
  - rewrite str_of_neg.
    change (remove_non_numeric (remove_commas (String "-" ?s)))
      with (String "-" (remove_non_numeric (remove_commas s))).
    rewrite (clean_digits _ (uint_digits _)).
    unfold to_numeric. rewrite Ascii.eqb_refl.
    rewrite parse_unsigned_digits;
      [|apply uint_digits | apply uint_nonempty, Unsigned.to_uint_nonnil].
    rewrite digits_value_uint, Unsigned.of_to. simpl.
    unfold astype_int. simpl. apply Z.quot_1_r.
Qed.

(** C8. Normalizing again changes nothing: an integer balance is printed
    and read back as itself, and a normalized disposition is already trimmed
    and in upper case. *)
Theorem normalizer_idempotent :
  (forall z, normalize_balance (Int z) = z)
  /\ (forall c, normalize_balance (Int (normalize_balance c)) = normalize_balance c)
  /\ (forall c, normalize_disposition (Str (normalize_disposition c)) =
                normalize_disposition c).
Proof.
  split; [exact normalize_balance_int|].
  split; [intro c; apply normalize_balance_int|].
  exact normalize_disposition_idem.
Qed.

(** ** Balance cleaning *)


Lemma sall_none (p q : ascii -> bool) (s : string) :
  (forall c, p c = true -> q c = false) ->
  PyStr.sall p s = true -> PyStr.sany q s = false.
Proof.
  intro H. induction s as [|c s IH]; simpl; [reflexivity|].
  intro Hs. apply andb_true_iff in Hs. destruct Hs as [Hc Hs].
  now rewrite (H c Hc), (IH Hs).
Qed.



(** ** Tabular reader *)

(** C5. Whatever the bytes and wherever the cursor stands, the reader gives
    what the four attempts (default, latin-1, UTF-8, then the lenient one)
    give when each is run on the upload from its first byte: the table of
    the first attempt that does not raise, and an error only when all four
    raise, then the error of the lenient attempt. *)
Theorem read_csv_safe_first_success
  (table exn : Type) (content : list Byte.byte)
  (read_csv : Reader.kwargs -> list Byte.byte -> nat -> (table + exn) * nat)
  (cur : nat) :
  let result := fst (Reader._read_csv_safe content read_csv cur) in
  let try kw := Reader.attempt content read_csv kw in
  result = Reader.reader_spec content read_csv
  /\ (forall pre kw post t,
        Reader.attempts = (pre ++ kw :: post)%list ->
        Forall (fun k => Reader.raises (try k)) pre ->
        try kw = inl t -> result = inl t)
  /\ (forall e, result = inr e ->
        Forall (fun k => Reader.raises (try k)) Reader.attempts
        /\ try Reader.lenient = inr e).
Proof.
  intros result try.
  assert (E : result = Reader.reader_spec content read_csv).
  { subst result.
    cbv [Reader._read_csv_safe Reader.try_encodings Reader.bind Reader.seek
         Reader.call_read_csv Reader.ret Reader.reader_spec
         Reader.first_success Reader.attempt].
    destruct (read_csv (Reader.strict None) content 0%nat) as [[t|e] c1];
      simpl; [reflexivity|].
    destruct (read_csv (Reader.strict (Some "latin1")) content 0%nat) as [[t|e'] c2];
      simpl; [reflexivity|].
    destruct (read_csv (Reader.strict (Some "utf-8")) content 0%nat) as [[t|e''] c3];
      simpl; [reflexivity|].
    destruct (read_csv Reader.lenient content 0%nat) as [[t|e3] c4]; reflexivity. }
  split; [exact E|].
  rewrite E. clear E result. subst try.
  cbv [Reader.reader_spec Reader.first_success]. cbv beta.
  set (a1 := Reader.attempt content read_csv (Reader.strict None)).
  set (a2 := Reader.attempt content read_csv (Reader.strict (Some "latin1"))).
  set (a3 := Reader.attempt content read_csv (Reader.strict (Some "utf-8"))).
  set (a4 := Reader.attempt content read_csv Reader.lenient).
  split.
  - intros pre kw post t Hsplit Hpre Hkw.
    unfold Reader.attempts in Hsplit.
    destruct pre as [|k1 pre]; simpl in Hsplit; inversion Hsplit; subst.
    { fold a1 in Hkw. now rewrite Hkw. }
    inversion Hpre as [|? ? R1 Hpre1]; subst. fold a1 in R1.
    destruct a1 as [?|?]; [destruct R1|].
    destruct pre as [|k2 pre]; simpl in *; inversion H1; subst.
    { fold a2 in Hkw. now rewrite Hkw. }
    inversion Hpre1 as [|? ? R2 Hpre2]; subst. fold a2 in R2.
    destruct a2 as [?|?]; [destruct R2|].
    destruct pre as [|k3 pre]; simpl in *; inversion H2; subst.
    { fold a3 in Hkw. now rewrite Hkw. }
    inversion Hpre2 as [|? ? R3 Hpre3]; subst. fold a3 in R3.
    destruct a3 as [?|?]; [destruct R3|].
    destruct pre as [|k4 pre]; simpl in *; inversion H3; subst.
    { fold a4 in Hkw. now rewrite Hkw. }
    destruct pre; discriminate.
  - intros e. unfold Reader.attempts.
    destruct a1 as [?|?] eqn:E1; [discriminate|].
    destruct a2 as [?|?] eqn:E2; [discriminate|].
    destruct a3 as [?|?] eqn:E3; [discriminate|].
    destruct a4 as [?|?] eqn:E4; [discriminate|].
    intros [= ->]. split; [|reflexivity].
    repeat constructor;
      [fold a1; rewrite E1 | fold a2; rewrite E2
       | fold a3; rewrite E3 | fold a4; rewrite E4]; exact I.
Qed.

(** The cursor is put back before each attempt: a reader that only works
    from the first byte, and only as latin-1, succeeds at the second attempt
    although the first one left the cursor at the end. *)
Example read_csv_safe_rewinds :
  Reader._read_csv_safe [Byte.x41; Byte.xe9] Reader.latin1_only 1%nat = (inl 2%nat, 2%nat).
Proof. reflexivity. Qed.

(** ** Groups under an ordered key *)

Section GroupByOrder.
Context {K : Type}.
Variable compare : K -> K -> comparison.
Variable has_na : K -> bool.
Hypothesis compare_eq : forall x y, compare x y = Eq -> x = y.
Hypothesis compare_refl : forall x, compare x x = Eq.
Hypothesis compare_gt_lt : forall x y, compare x y = Gt -> compare y x = Lt.
Hypothesis compare_lt_trans :
  forall x y z, compare x y = Lt -> compare y z = Lt -> compare x z = Lt.

Let key_lt (a b : K * Z) : Prop := compare (fst a) (fst b) = Lt.
Let add_item (g : list (K * Z)) (kb : K * Z) : list (K * Z) :=
  if has_na (fst kb) then g else group_add compare (fst kb) (snd kb) g.

Lemma group_add_sorted (k : K) (b : Z) (g : list (K * Z)) :
  StronglySorted key_lt g -> StronglySorted key_lt (group_add compare k b g).
Proof.
  induction g as [|[k' t] g IH]; simpl; intro Hs.
  - repeat constructor.
  - inversion Hs as [|? ? Hs' Hall]; subst.
    destruct (compare k k') eqn:E.
    + constructor; assumption.
    + constructor; [exact Hs|]. constructor; [exact E|].
      eapply Forall_impl; [|exact Hall].
      intros [k2 t2] H. unfold key_lt in *. simpl in *.
      eapply compare_lt_trans; eassumption.
    + constructor; [apply IH, Hs'|].
      apply (group_add_keys compare (fun x => compare k' x = Lt));
        [apply compare_gt_lt, E | exact Hall].
Qed.

Lemma group_total_above (k : K) (g : list (K * Z)) :
  Forall (fun kt => compare k (fst kt) = Lt) g -> group_total compare k g = None.
Proof.
  induction g as [|[k' t] g IH]; simpl; intro H; [reflexivity|].
  inversion H; subst. simpl in *.
  match goal with E : compare k k' = Lt |- _ => rewrite E end. simpl. auto.
Qed.

Lemma group_total_add_same (k : K) (b : Z) (g : list (K * Z)) :
  StronglySorted key_lt g ->
  group_total compare k (group_add compare k b g) =
  Some (add64 (match group_total compare k g with Some t => t | None => 0 end) b).
Proof.
  induction g as [|[k' t] g IH]; simpl; intro Hs.
  - now rewrite compare_refl.
  - inversion Hs as [|? ? Hs' Hall]; subst.
    destruct (compare k k') eqn:E; simpl.
    + now rewrite E.
    + rewrite compare_refl. simpl.
      rewrite group_total_above; [reflexivity|].
      eapply Forall_impl; [|exact Hall].
      intros [k2 t2] H. unfold key_lt in H. simpl in *.
      eapply compare_lt_trans; eassumption.
    + rewrite E. simpl. apply IH, Hs'.
Qed.

Lemma group_total_add_other (k k0 : K) (b : Z) (g : list (K * Z)) :
  k <> k0 ->
  group_total compare k (group_add compare k0 b g) = group_total compare k g.
Proof.
  intro Hne.
  assert (Hk0 : is_eq (compare k k0) = false).
  { destruct (compare k k0) eqn:E; [|reflexivity..].
    exfalso. apply Hne, compare_eq, E. }
  induction g as [|[k' t] g IH]; simpl.
  - now rewrite Hk0.
  - destruct (compare k0 k') eqn:E; simpl.
    + apply compare_eq in E. subst k'. now rewrite Hk0.
    + now rewrite Hk0.
    + now rewrite IH.
Qed.

Lemma fold_step_sorted (items g : list (K * Z)) :
  StronglySorted key_lt g -> StronglySorted key_lt (fold_left add_item items g).
Proof.
  revert g; induction items as [|[k b] items IH]; intros g Hs; simpl.
  - exact Hs.
  - apply IH. unfold add_item. simpl.
    destruct (has_na k); [exact Hs | now apply group_add_sorted].
Qed.

Lemma fold_step_total (k : K) (items g : list (K * Z)) :
  StronglySorted key_lt g ->
  group_total compare k (fold_left add_item items g) =
  match values_at compare has_na k items with
  | [] => group_total compare k g
  | _ :: _ =>
      Some (fold_left add64 (values_at compare has_na k items)
              (match group_total compare k g with Some t => t | None => 0 end))
  end.
Proof.
  revert g; induction items as [|[k0 b] items IH]; intros g Hs.
  - reflexivity.
  - cbn [fold_left]. unfold values_at, keyed in *. cbn [filter fst].
    unfold add_item at 2. cbn [fst snd].
    destruct (has_na k0) eqn:Ena; cbn [negb].
    + apply IH, Hs.
    + rewrite IH by now apply group_add_sorted.
      cbn [filter fst]. destruct (compare k0 k) eqn:E; cbn [is_eq map snd].
      * apply compare_eq in E. subst k0.
        rewrite group_total_add_same by exact Hs.
        destruct (map snd _); reflexivity.
      * rewrite group_total_add_other; [reflexivity|].
        intros ->. rewrite compare_refl in E. discriminate.
      * rewrite group_total_add_other; [reflexivity|].
        intros ->. rewrite compare_refl in E. discriminate.
Qed.

Lemma groupby_sum_sorted (items : list (K * Z)) :
  StronglySorted key_lt (groupby_sum compare has_na items).
Proof. apply fold_step_sorted. constructor. Qed.

Lemma groupby_sum_group_total (k : K) (items : list (K * Z)) :
  group_total compare k (groupby_sum compare has_na items) =
  match values_at compare has_na k items with
  | [] => None
  | _ :: _ => Some (sum64 (values_at compare has_na k items))
  end.
Proof. apply (fold_step_total k items []). constructor. Qed.

Lemma sorted_in_group_total (k : K) (t : Z) (g : list (K * Z)) :
  StronglySorted key_lt g ->
  (In (k, t) g <-> group_total compare k g = Some t).
Proof.
  induction g as [|[k' t'] g IH]; simpl; intro Hs.
  - split; [intros [] | discriminate].
  - inversion Hs as [|? ? Hs' Hall]; subst. split.
    + intros [H|H].
      * inversion H; subst. now rewrite compare_refl.
      * assert (Hlt : compare k' k = Lt).
        { rewrite Forall_forall in Hall. exact (Hall _ H). }
        destruct (compare k k') eqn:E; simpl.
        -- apply compare_eq in E. subst k'. rewrite compare_refl in Hlt.
           discriminate.
        -- now apply IH.
        -- now apply IH.
    + destruct (compare k k') eqn:E; simpl.
      * intros [= ->]. apply compare_eq in E. subst k'. now left.
      * intro H. right. now apply IH.
      * intro H. right. now apply IH.
Qed.

(** A key has a group exactly when some item is filed under it, and the
    total of the group is the 64-bit sum of those items. *)
Lemma groupby_sum_entries (k : K) (t : Z) (items : list (K * Z)) :
  In (k, t) (groupby_sum compare has_na items) <->
  values_at compare has_na k items <> [] /\
  t = sum64 (values_at compare has_na k items).
Proof.
  rewrite (sorted_in_group_total k t _ (groupby_sum_sorted items)).
  rewrite groupby_sum_group_total.
  destruct (values_at compare has_na k items) as [|v vs].
  - split; [discriminate | intros [H _]; now elim H].
  - split.
    + intros [= <-]. split; [discriminate | reflexivity].
    + intros [_ ->]. reflexivity.
Qed.

End GroupByOrder.

(** ** The order of cells *)

Lemma string_compare_refl (s : string) : String.compare s s = Eq.
Proof.
  pose proof (String.compare_antisym s s) as H.
  destruct (String.compare s s); simpl in H; congruence.
Qed.

Lemma string_compare_lt_trans (x y z : string) :
  String.compare x y = Lt -> String.compare y z = Lt -> String.compare x z = Lt.
Proof.
  intros H1 H2. apply String_as_OT.cmp_lt.
  apply String_as_OT.lt_trans with y; now apply String_as_OT.cmp_lt.
Qed.

Lemma cell_compare_eq (a b : cell) : cell_compare a b = Eq -> a = b.
Proof.
  destruct a, b; simpl; try discriminate; try reflexivity; intro H.
  - f_equal. now apply String.compare_eq_iff.
  - f_equal. now apply Z.compare_eq.
Qed.

Lemma cell_compare_refl (a : cell) : cell_compare a a = Eq.
Proof.
  destruct a; simpl; [reflexivity | apply string_compare_refl | apply Z.compare_refl].
Qed.

Lemma cell_compare_gt_lt (a b : cell) :
  cell_compare a b = Gt -> cell_compare b a = Lt.
Proof.
  destruct a, b; simpl; try discriminate; try reflexivity; intro H.
  - rewrite String.compare_antisym, H. reflexivity.
  - rewrite Z.compare_antisym, H. reflexivity.
Qed.

Lemma cell_compare_lt_trans (a b c : cell) :
  cell_compare a b = Lt -> cell_compare b c = Lt -> cell_compare a c = Lt.
Proof.
  destruct a, b, c; simpl; try discriminate; try reflexivity.
  - apply string_compare_lt_trans.
  - rewrite !Z.compare_lt_iff. lia.
Qed.

Lemma is_eq_cell_compare (a b : cell) :
  is_eq (cell_compare a b) = if cell_eq_dec a b then true else false.
Proof.
  destruct (cell_eq_dec a b) as [->|Hne].
  - now rewrite cell_compare_refl.
  - destruct (cell_compare a b) eqn:E; [|reflexivity..].
    exfalso. apply Hne, cell_compare_eq, E.
Qed.

(** ** Per-location totals *)

Lemma values_at_location (l : cell) (a : list agg_row) :
  l <> NaN ->
  values_at cell_compare isna l (map (fun r => (Location r, Balance r)) a) =
  balances_at l a.
Proof.
  intro Hl. unfold values_at, balances_at, keyed.
  rewrite filter_filter, filter_map_comm, map_map. simpl.
  f_equal. apply filter_ext. intro r.
  rewrite is_eq_cell_compare.
  destruct (cell_eq_dec (Location r) l) as [E|E].
  - rewrite E. destruct l; [now elim Hl | reflexivity..].
  - apply andb_false_r.
Qed.

Lemma values_at_nan (a : list agg_row) :
  values_at cell_compare isna NaN (map (fun r => (Location r, Balance r)) a) = [].
Proof.
  unfold values_at, keyed. rewrite filter_filter.
  induction a as [|r a IH]; simpl; [reflexivity|].
  destruct (Location r); simpl; exact IH.
Qed.

Lemma location_sums_entries (a : list agg_row) (l : cell) (t : Z) :
  In (l, t) (location_sums a) <->
  l <> NaN /\ balances_at l a <> [] /\ t = sum64 (balances_at l a).
Proof.
  unfold location_sums.
  rewrite (groupby_sum_entries cell_compare isna cell_compare_eq cell_compare_refl
             cell_compare_gt_lt cell_compare_lt_trans).
  destruct (cell_eq_dec l NaN) as [->|Hl].
  - rewrite values_at_nan. split; [intros [H _]; now elim H | intros [H _]; now elim H].
  - rewrite (values_at_location l a Hl). tauto.
Qed.

Lemma insert_desc_perm (x : cell * Z) (l : list (cell * Z)) :
  Permutation (insert_desc x l) (x :: l).
Proof.
  induction l as [|y l IH]; simpl; [reflexivity|].
  destruct (snd y <? snd x); [reflexivity|].
  rewrite IH. apply perm_swap.
Qed.

Lemma sort_desc_perm (l : list (cell * Z)) : Permutation (sort_desc l) l.
Proof.
  induction l as [|x l IH]; simpl; [reflexivity|].
  rewrite insert_desc_perm. now constructor.
Qed.



Lemma location_totals_entries (a : list agg_row) (l : cell) (t : Z) :
  In (l, t) (location_totals a) <->
  l <> NaN /\ balances_at l a <> [] /\ t = sum64 (balances_at l a).
Proof.
  rewrite <- location_sums_entries. unfold location_totals. split; intro H.
  - eapply Permutation_in; [apply sort_desc_perm | exact H].
  - eapply Permutation_in; [symmetry; apply sort_desc_perm | exact H].
Qed.

(** ** Search filter *)

Lemma isprefix_empty (s : string) : PyStr.isprefix EmptyString s = true.
Proof. destruct s; reflexivity. Qed.











(** ** CSV: what is written tokenizes back *)

Lemma append_nil_r (s : string) : s ++ EmptyString = s.
Proof. induction s as [|c s IH]; simpl; [reflexivity | now rewrite IH]. Qed.

Lemma append_assoc (a b c : string) : (a ++ b) ++ c = a ++ (b ++ c).
Proof. induction a as [|x a IH]; simpl; [reflexivity | now rewrite IH]. Qed.

Lemma append_snoc (a : string) (c : ascii) (s : string) :
  (a ++ String c EmptyString) ++ s = a ++ String c s.
Proof. now rewrite append_assoc. Qed.

Lemma feed_app (a b : string) (p : parser) :
  feed (a ++ b) p = feed b (feed a p).
Proof.
  revert p; induction a as [|c a IH]; intro p; simpl; [reflexivity | apply IH].
Qed.

Lemma plain_cases (c : ascii) :
  plain c = true ->
  Ascii.eqb c lf = false /\ Ascii.eqb c cr = false
  /\ Ascii.eqb c PyStr.dquote = false /\ Ascii.eqb c comma = false.
Proof.
  unfold plain. intro H. apply negb_true_iff in H.
  repeat (apply orb_false_iff in H; destruct H as [H ?]). tauto.
Qed.

Lemma feed_in_field (s f : string) (r : list string) (o : list (list string)) (w : string) :
  PyStr.sall plain s = true ->
  feed s (mkParser IN_FIELD f r o w) = mkParser IN_FIELD (f ++ s) r o w.
Proof.
  revert f; induction s as [|c s IH]; intros f H; simpl.
  - now rewrite append_nil_r.
  - simpl in H. apply andb_true_iff in H. destruct H as [Hc Hs].
    destruct (plain_cases c Hc) as [H1 [H2 [H3 H4]]].
    unfold step, on_in_field. simpl. rewrite H1, H2, H4.
    unfold push_char. simpl. rewrite (IH _ Hs). now rewrite append_snoc.
Qed.

Lemma feed_quoted_body (s f : string) (r : list string) (o : list (list string)) (w : string) :
  feed (double_quotes s) (mkParser IN_QUOTED_FIELD f r o w) =
  mkParser IN_QUOTED_FIELD (f ++ s) r o w.
Proof.
  revert f; induction s as [|c s IH]; intro f; simpl.
  - now rewrite append_nil_r.
  - destruct (Ascii.eqb c PyStr.dquote) eqn:E.
    + apply Ascii.eqb_eq in E. subst c. simpl.
      unfold step at 2. simpl. unfold on_in_quoted_field.
      rewrite Ascii.eqb_refl. unfold step. simpl.
      unfold on_quote_in_quoted_field. rewrite Ascii.eqb_refl.
      unfold set_state, push_char. simpl. rewrite IH. now rewrite append_snoc.
    + simpl. unfold step. simpl. unfold on_in_quoted_field. rewrite E.
      unfold push_char. simpl. rewrite IH. now rewrite append_snoc.
Qed.

Lemma field_read_comma (p : parser) (s : string) (r : list string)
  (o : list (list string)) :
  field_read p s r o ->
  step p comma = mkParser START_FIELD EmptyString (r ++ [s])%list o EmptyString.
Proof. intros [->|[->| ->]]; reflexivity. Qed.

Lemma field_read_lf (p : parser) (s : string) (r : list string)
  (o : list (list string)) :
  field_read p s r o ->
  step p lf = mkParser START_RECORD EmptyString [] (o ++ [(r ++ [s])%list])%list EmptyString.
Proof. intros [->|[->| ->]]; reflexivity. Qed.

Lemma unquoted_plain (s : string) :
  needs_quotes s = false -> no_cr s -> PyStr.sall plain s = true.
Proof.
  unfold needs_quotes, no_cr, plain.
  induction s as [|c s IH]; cbn [PyStr.sany PyStr.sall]; [reflexivity|].
  intros H1 H2.
  apply orb_false_iff in H1. destruct H1 as [Hc Hs].
  apply orb_false_iff in H2. destruct H2 as [Hr Hs2].
  rewrite (IH Hs Hs2), andb_true_r.
  rewrite (Ascii.eqb_sym c cr), Hr, orb_false_r, Hc. reflexivity.
Qed.

Lemma feed_quoted_field (s : string) (st0 : tstate) (r : list string)
  (o : list (list string)) :
  st0 = START_FIELD \/ st0 = START_RECORD ->
  feed (String PyStr.dquote (double_quotes s ++ String PyStr.dquote EmptyString))
       (mkParser st0 EmptyString r o EmptyString) =
  mkParser QUOTE_IN_QUOTED_FIELD s r o EmptyString.
Proof.
  intro Hst.
  assert (E : step (mkParser st0 EmptyString r o EmptyString) PyStr.dquote =
              mkParser IN_QUOTED_FIELD EmptyString r o EmptyString)
    by (destruct Hst as [-> | ->]; reflexivity).
  cbn [feed]. rewrite E, feed_app, feed_quoted_body. reflexivity.
Qed.

Lemma feed_field (s : string) (r : list string) (o : list (list string)) :
  no_cr s ->
  field_read (feed (csv_field s) (mkParser START_FIELD EmptyString r o EmptyString))
             s r o.
Proof.
  intro Hcr. unfold csv_field. destruct (needs_quotes s) eqn:Eq.
  - right. right. apply feed_quoted_field. now left.
  - pose proof (unquoted_plain s Eq Hcr) as Hp.
    destruct s as [|c s]; [now left|].
    right. left. simpl in Hp. apply andb_true_iff in Hp. destruct Hp as [Hc Hs].
    destruct (plain_cases c Hc) as [H1 [H2 [H3 H4]]].
    cbn [feed]. unfold step. simpl. unfold on_start_field.
    rewrite H1, H2, H3, H4. unfold set_state, push_char. simpl.
    now rewrite (feed_in_field s _ _ _ _ Hs).
Qed.

Lemma feed_blanks (s w : string) (o : list (list string)) :
  PyStr.sall plain s = true ->
  step (feed s (mkParser WHITESPACE_LINE EmptyString [] o w)) comma =
  mkParser START_FIELD EmptyString [w ++ s] o EmptyString.
Proof.
  revert w; induction s as [|c s IH]; intros w Hp.
  - simpl. now rewrite append_nil_r.
  - simpl in Hp. apply andb_true_iff in Hp. destruct Hp as [Hc Hs].
    destruct (plain_cases c Hc) as [H1 [H2 [H3 H4]]].
    cbn [feed]. unfold step at 2. simpl. unfold on_whitespace_line.
    rewrite H1, H2. simpl. destruct (is_blank c).
    + rewrite (IH _ Hs). now rewrite append_snoc.
    + unfold on_in_field. rewrite H1, H2, H4. unfold push_char. simpl.
      rewrite (feed_in_field s _ _ _ _ Hs). simpl. now rewrite append_snoc.
Qed.

Lemma feed_first_field (s : string) (o : list (list string)) :
  no_cr s ->
  step (feed (csv_field s) (mkParser START_RECORD EmptyString [] o EmptyString)) comma =
  mkParser START_FIELD EmptyString [s] o EmptyString.
Proof.
  intro Hcr. unfold csv_field. destruct (needs_quotes s) eqn:Eq.
  - rewrite feed_quoted_field by now right. reflexivity.
  - pose proof (unquoted_plain s Eq Hcr) as Hp.
    destruct s as [|c s]; [reflexivity|].
    simpl in Hp. apply andb_true_iff in Hp. destruct Hp as [Hc Hs].
    destruct (plain_cases c Hc) as [H1 [H2 [H3 H4]]].
    cbn [feed]. unfold step at 2. simpl. unfold on_start_record.
    rewrite H1, H2. destruct (is_blank c).
    + now rewrite (feed_blanks s _ _ Hs).
    + unfold on_start_field. rewrite H1, H2, H3, H4.
      unfold set_state, push_char. simpl.
      now rewrite (feed_in_field s _ _ _ _ Hs).
Qed.

(** A line of three fields adds one row of three fields. *)
Lemma feed_line (f0 f1 f2 : string) (o : list (list string)) :
  no_cr f0 -> no_cr f1 -> no_cr f2 ->
  feed (csv_fields f0 [f1; f2]) (mkParser START_RECORD EmptyString [] o EmptyString) =
  mkParser START_RECORD EmptyString [] (o ++ [[f0; f1; f2]])%list EmptyString.
Proof.
  intros H0 H1 H2. cbn [csv_fields].
  rewrite feed_app. cbn [feed]. rewrite (feed_first_field f0 o H0).
  rewrite feed_app. cbn [feed].
  rewrite (field_read_comma _ _ _ _ (feed_field f1 _ _ H1)).
  rewrite feed_app. cbn [feed].
  rewrite (field_read_lf _ _ _ _ (feed_field f2 _ _ H2)).
  reflexivity.
Qed.

Lemma digit_not_cr (c : ascii) : PyStr.isdigit c = true -> Ascii.eqb cr c = false.
Proof. by_ascii_cases c. Qed.

Lemma str_of_int_no_cr (z : Z) : no_cr (str_of_int z).
Proof.
  unfold no_cr. destruct z as [|p|p].
  - reflexivity.
  - rewrite str_of_pos. exact (sall_none _ _ _ digit_not_cr (uint_digits _)).
  - rewrite str_of_neg. cbn [PyStr.sany].
    rewrite (sall_none _ _ _ digit_not_cr (uint_digits _)). reflexivity.
Qed.

Lemma feed_rows (a : list agg_row) (o : list (list string)) :
  Forall (fun r => no_cr (cell_text (Location r)) /\ no_cr (cell_text (MSKU r))) a ->
  feed (csv_rows a) (mkParser START_RECORD EmptyString [] o EmptyString) =
  mkParser START_RECORD EmptyString [] (o ++ map row_text a)%list EmptyString.
Proof.
  revert o; induction a as [|r a IH]; intros o H; simpl.
  - now rewrite app_nil_r.
  - inversion H as [|? ? [Hl Hm] Ha]; subst.
    rewrite feed_app. unfold csv_row.
    rewrite (feed_line _ _ _ o Hl Hm (str_of_int_no_cr _)).
    rewrite (IH _ Ha). unfold row_text at 2. now rewrite <- app_assoc.
Qed.

(** The text written for an aggregate splits back into the header and the
    text of every row, in order. *)
Lemma tokenize_to_csv (a : list agg_row) :
  Forall (fun r => no_cr (cell_text (Location r)) /\ no_cr (cell_text (MSKU r))) a ->
  tokenize (to_csv a) = Some (csv_columns :: map row_text a).
Proof.
  intro H. unfold tokenize, to_csv, start_of_text.
  rewrite feed_app.
  rewrite (feed_line "Location" "MSKU" "Ending Warehouse Balance" []
             eq_refl eq_refl eq_refl).
  rewrite (feed_rows a _ H). reflexivity.
Qed.

(** ** CSV: the cells that are read back *)


























(** * Further properties of the script *)

(** ** Chunks *)

Lemma slice_chunk {A : Type} (lst : list A) (i n : nat) :
  slice lst i (i + n) = firstn n (skipn i lst).
Proof. unfold slice. f_equal. lia. Qed.

Lemma range_from_nonempty (fuel start stop step : nat) :
  range_from fuel start stop step <> [] -> (start < stop)%nat.
Proof.
  destruct fuel as [|fuel]; simpl; [congruence|].
  destruct (Nat.ltb start stop) eqn:E; [|congruence].
  intros _. now apply Nat.ltb_lt.
Qed.

Lemma chunks_concat_from {A : Type} (lst : list A) (n fuel i : nat) :
  (1 <= n)%nat -> (List.length lst - i <= fuel)%nat ->
  List.concat (map (fun i => slice lst i (i + n))
              (range_from fuel i (List.length lst) n)) = skipn i lst.
Proof.
  intro Hn. revert i; induction fuel as [|fuel IH]; intros i Hf; simpl.
  - symmetry. apply skipn_all2. lia.
  - destruct (Nat.ltb i (List.length lst)) eqn:E.
    + simpl. rewrite slice_chunk, IH by lia.
      rewrite Nat.add_comm, <- skipn_skipn. apply firstn_skipn.
    + apply Nat.ltb_ge in E. symmetry. apply skipn_all2. lia.
Qed.

Lemma chunks_sizes_from {A : Type} (lst : list A) (n fuel i : nat) :
  (1 <= n)%nat ->
  Forall (fun c => (1 <= List.length c <= n)%nat)
         (map (fun i => slice lst i (i + n))
              (range_from fuel i (List.length lst) n)).
Proof.
  intro Hn. revert i; induction fuel as [|fuel IH]; intro i; simpl.
  - constructor.
  - destruct (Nat.ltb i (List.length lst)) eqn:E; [|constructor].
    apply Nat.ltb_lt in E. simpl. constructor; [|apply IH].
    rewrite slice_chunk, length_firstn, length_skipn. lia.
Qed.

Lemma chunks_full_from {A : Type} (lst : list A) (n fuel i : nat) :
  Forall (fun c => List.length c = n)
         (removelast (map (fun i => slice lst i (i + n))
                          (range_from fuel i (List.length lst) n))).
Proof.
  revert i; induction fuel as [|fuel IH]; intro i; simpl.
  - constructor.
  - destruct (Nat.ltb i (List.length lst)) eqn:E; [|constructor].
    cbn [map].
    destruct (range_from fuel (i + n) (List.length lst) n) as [|j rest] eqn:R.
    + constructor.
    + assert (Hlt : (i + n < List.length lst)%nat)
        by (apply (range_from_nonempty fuel _ _ n); rewrite R; discriminate).
      specialize (IH (i + n)%nat). rewrite R in IH.
      cbn [map removelast] in *. constructor; [|exact IH].
      rewrite slice_chunk, length_firstn, length_skipn. lia.
Qed.

Lemma chunks_count_from (len n fuel i : nat) :
  (1 <= n)%nat -> (len - i <= fuel)%nat ->
  List.length (range_from fuel i len n) = ((len - i + (n - 1)) / n)%nat.
Proof.
  intro Hn. revert i; induction fuel as [|fuel IH]; intros i Hf; simpl.
  - replace (len - i)%nat with 0%nat by lia. simpl.
    symmetry. apply Nat.div_small. lia.
  - destruct (Nat.ltb i len) eqn:E.
    + apply Nat.ltb_lt in E. simpl. rewrite IH by lia.
      destruct (Nat.le_gt_cases n (len - i)) as [Hge|Hlt].
      * replace (len - i + (n - 1))%nat with ((len - (i + n) + (n - 1)) + 1 * n)%nat
          by lia.
        rewrite Nat.div_add by lia. lia.
      * replace (len - (i + n))%nat with 0%nat by lia.
        rewrite (Nat.div_small (0 + (n - 1)) n) by lia.
        apply (Nat.div_unique _ _ 1%nat (len - i - 1)%nat); lia.
    + apply Nat.ltb_ge in E. replace (len - i)%nat with 0%nat by lia. simpl.
      symmetry. apply Nat.div_small. lia.
Qed.

(** X1. For a positive chunk size the chunks, put end to end, are the list
    itself; there are as many as the length divided by the size, rounded
    up; none is empty or longer than the size, and all but the last have
    exactly the size. *)
Theorem chunks_partition {A : Type} (lst : list A) (n : nat) :
  (1 <= n)%nat ->
  exists cs,
    chunks lst n = Some cs
    /\ List.concat cs = lst
    /\ List.length cs = ((List.length lst + (n - 1)) / n)%nat
    /\ Forall (fun c => (1 <= List.length c <= n)%nat) cs
    /\ Forall (fun c => List.length c = n) (removelast cs).
Proof.
  intro Hn. unfold chunks. destruct n as [|m]; [lia|].
  eexists. split; [reflexivity|].
  split; [apply (chunks_concat_from lst (S m) _ 0); lia|].
  split.
  { rewrite length_map, chunks_count_from by lia. now rewrite Nat.sub_0_r. }
  split; [apply chunks_sizes_from; lia | apply chunks_full_from].
Qed.

Lemma chunks_partition_witness :
  (1 <= 3)%nat
  /\ exists cs, chunks [1; 2; 3; 4; 5; 6; 7] 3 = Some cs /\ List.concat cs = [1; 2; 3; 4; 5; 6; 7].
Proof.
  split; [lia|].
  destruct (chunks_partition [1; 2; 3; 4; 5; 6; 7] 3 (le_S _ _ (le_S _ _ (le_n 1))))
    as [cs [H1 [H2 _]]].
  exists cs. split; assumption.
Defined.

(** ** Resolver and outcomes of the script *)

Lemma find_app_first {A : Type} (p : A -> bool) (l1 l2 : list A) :
  (forall x, In x l1 -> p x = false) -> find p (l1 ++ l2) = find p l2.
Proof.
  induction l1 as [|a l1 IH]; simpl; intro H; [reflexivity|].
  rewrite (H a (or_introl eq_refl)). apply IH. intros x Hx. apply H. now right.
Qed.

(** X2. When several headers are the desired name up to case and blanks,
    the look-up returns the one that comes last. *)
Theorem find_column_takes_last (pre post : list string) (c d : string) :
  same_name c d ->
  (forall c', In c' post -> ~ same_name c' d) ->
  _find_column_by_name (pre ++ c :: post)%list d = Some c.
Proof.
  intros Hc Hpost. rewrite find_column_last.
  rewrite rev_app_distr. cbn [rev]. rewrite <- app_assoc.
  rewrite find_app_first.
  - cbn [app find]. apply same_nameb_iff in Hc. now rewrite Hc.
  - intros x Hx. apply in_rev in Hx.
    destruct (same_nameb x d) eqn:E; [|reflexivity].
    exfalso. apply (Hpost x Hx). now apply same_nameb_iff.
Qed.

Lemma find_column_takes_last_witness :
  same_name " MSKU" "MSKU"
  /\ (forall c', In c' ["Location"] -> ~ same_name c' "MSKU")
  /\ _find_column_by_name ["msku"; " MSKU"; "Location"] "MSKU" = Some " MSKU".
Proof.
  assert (H1 : same_name " MSKU" "MSKU") by reflexivity.
  assert (H2 : forall c', In c' ["Location"] -> ~ same_name c' "MSKU").
  { intros c' [<-|[]]. unfold same_name. simpl. discriminate. }
  split; [exact H1|]. split; [exact H2|].
  exact (find_column_takes_last ["msku"] ["Location"] " MSKU" "MSKU" H1 H2).
Defined.

Lemma resolve_name (cols : list string) (key pretty c : string) :
  resolve cols key pretty = Some c ->
  In (PyStr.lower (PyStr.strip c))
     [PyStr.lower (PyStr.strip pretty); PyStr.lower (PyStr.strip key)].
Proof.
  intro H. unfold resolve in H.
  destruct (_find_column_by_name cols pretty) as [c0|] eqn:E.
  - inversion H; subst c0. apply find_column_some in E.
    destruct E as [_ E]. left. now symmetry.
  - apply find_column_some in H. destruct H as [_ E']. right. left. now symmetry.
Qed.

(** X3. Two different fields never resolve to the same header, so the
    columns the script rewrites and groups by are four different ones. *)
Theorem resolved_headers_differ (cols : list string)
  (k1 p1 k2 p2 c1 c2 : string) :
  In (k1, p1) required -> In (k2, p2) required -> k1 <> k2 ->
  resolve cols k1 p1 = Some c1 -> resolve cols k2 p2 = Some c2 ->
  c1 <> c2.
Proof.
  intros H1 H2 Hne R1 R2 Heq. subst c2.
  apply resolve_name in R1. apply resolve_name in R2.
  remember (PyStr.lower (PyStr.strip c1)) as n eqn:En. clear En.
  simpl in H1, H2.
  destruct H1 as [E1|[E1|[E1|[E1|[]]]]]; inversion E1; subst; clear E1;
    destruct H2 as [E2|[E2|[E2|[E2|[]]]]]; inversion E2; subst; clear E2;
    try (now elim Hne);
    vm_compute in R1; vm_compute in R2;
    destruct R1 as [R1|[R1|[]]]; destruct R2 as [R2|[R2|[]]]; congruence.
Qed.

Lemma resolved_headers_differ_witness :
  In ("msku", "MSKU") required /\ In ("balance", "Ending Warehouse Balance") required
  /\ "msku" <> "balance"
  /\ resolve ["MSKU"; "Balance"] "msku" "MSKU" = Some "MSKU"
  /\ resolve ["MSKU"; "Balance"] "balance" "Ending Warehouse Balance" = Some "Balance"
  /\ "MSKU" <> "Balance".
Proof.
  assert (H1 : In ("msku", "MSKU") required) by (simpl; tauto).
  assert (H2 : In ("balance", "Ending Warehouse Balance") required) by (simpl; tauto).
  assert (H3 : "msku" <> "balance") by discriminate.
  repeat (split; [first [exact H1 | exact H2 | exact H3 | reflexivity]|]).
  exact (resolved_headers_differ ["MSKU"; "Balance"] _ _ _ _ _ _ H1 H2 H3
           eq_refl eq_refl).
Defined.

Lemma missing_some_unresolved (cols : list string) :
  missing (found cols) <> [] ->
  exists key pretty, In (key, pretty) required /\ resolve cols key pretty = None.
Proof.
  rewrite found_entries. unfold missing. cbn [map snd].
  destruct (resolve cols "msku" "MSKU") eqn:E1;
    [|intros _; exists "msku", "MSKU"; split; [simpl; tauto | exact E1]].
  destruct (resolve cols "disposition" "Disposition") eqn:E2;
    [|intros _; exists "disposition", "Disposition"; split; [simpl; tauto | exact E2]].
  destruct (resolve cols "balance" "Ending Warehouse Balance") eqn:E3;
    [|intros _; exists "balance", "Ending Warehouse Balance";
      split; [simpl; tauto | exact E3]].
  destruct (resolve cols "location" "Location") eqn:E4;
    [|intros _; exists "location", "Location"; split; [simpl; tauto | exact E4]].
  simpl. congruence.
Qed.

(** X4. The script stops on the schema error exactly when one of the four
    fields is not resolved, and then with that one message: with all four
    resolved it never reports a schema error. *)
Theorem schema_error_iff (df : DataFrame) (msg : string) :
  main df = SchemaError msg <->
  (exists key pretty, In (key, pretty) required /\
                      resolve (strip_columns (columns df)) key pretty = None)
  /\ msg = schema_message (strip_columns (columns df)).
Proof.
  unfold main. split.
  - destruct (missing (found (strip_columns (columns df)))) as [|m ms] eqn:E.
    + destruct (lookup _ "msku"); [|discriminate].
      destruct (lookup _ "disposition"); [|discriminate].
      destruct (lookup _ "balance"); [|discriminate].
      destruct (lookup _ "location"); [|discriminate].
      destruct (series _ _); [|discriminate].
      destruct (series _ _); [|discriminate].
      destruct (filter _ (rows df)); [discriminate|].
      destruct (series _ _); [|discriminate].
      destruct (series _ _); discriminate.
    + intros [= <-]. split; [|reflexivity].
      apply missing_some_unresolved. rewrite E. discriminate.
  - intros [[key [pretty [Hin Hnone]]] ->].
    destruct (missing (found (strip_columns (columns df)))) eqn:E; [|reflexivity].
    exfalso. exact (missing_nil_all_resolved _ E key pretty Hin Hnone).
Qed.

Lemma lookup_found (cols : list string) (key pretty col : string) :
  In (key, pretty) required ->
  lookup (found cols) key = Some col -> resolve cols key pretty = Some col.
Proof.
  rewrite found_entries. unfold lookup. simpl.
  intros [E|[E|[E|[E|[]]]]]; inversion E; subst; clear E; simpl;
    match goal with
    | |- context [match ?r with Some _ => _ | None => _ end] => destruct r
    end; congruence.
Qed.

Lemma input_records_resolved (df : DataFrame) (recs : list record) :
  input_records df = Some recs ->
  missing (found (strip_columns (columns df))) = [].
Proof.
  unfold input_records. intro H.
  destruct (missing (found (strip_columns (columns df)))) as [|m ms] eqn:E;
    [reflexivity|].
  exfalso.
  destruct (missing_some_unresolved (strip_columns (columns df)))
    as [key [pretty [Hin Hnone]]]; [rewrite E; discriminate|].
  destruct (lookup _ "msku") as [c1|] eqn:L1; [|discriminate].
  destruct (lookup _ "disposition") as [c2|] eqn:L2; [|discriminate].
  destruct (lookup _ "balance") as [c3|] eqn:L3; [|discriminate].
  destruct (lookup _ "location") as [c4|] eqn:L4; [|discriminate].
  simpl in Hin. destruct Hin as [E'|[E'|[E'|[E'|[]]]]]; inversion E'; subst.
  - rewrite (lookup_found _ "msku" "MSKU" c1) in Hnone; [discriminate|simpl; tauto|exact L1].
  - rewrite (lookup_found _ "disposition" "Disposition" c2) in Hnone;
      [discriminate|simpl; tauto|exact L2].
  - rewrite (lookup_found _ "balance" "Ending Warehouse Balance" c3) in Hnone;
      [discriminate|simpl; tauto|exact L3].
  - rewrite (lookup_found _ "location" "Location" c4) in Hnone;
      [discriminate|simpl; tauto|exact L4].
Qed.

(** X5. When the four fields resolve to one column each, the script either
    warns that nothing is sellable, exactly when no row has the normalized
    disposition SELLABLE, or shows the report of the aggregate of the
    sellable rows; it raises in neither case (the balances of this model
    are exact numbers: no overflow of a float is in sight). *)
Theorem main_of_input_records (df : DataFrame) (recs : list record) :
  input_records df = Some recs ->
  (df_sellable recs = [] -> main df = NoSellable)
  /\ (df_sellable recs <> [] ->
      main df = Shown (report_of (aggregate (df_sellable recs))))
  /\ main df <> Raised.
Proof.
  intro H. pose proof (input_records_resolved df recs H) as Hm.
  unfold main. rewrite Hm. unfold input_records in H.
  destruct (lookup _ "msku") as [msku_col|]; [|discriminate].
  destruct (lookup _ "disposition") as [disp_col|]; [|discriminate].
  destruct (lookup _ "balance") as [bal_col|]; [|discriminate].
  destruct (lookup _ "location") as [loc_col|]; [|discriminate].
  destruct (series _ loc_col) as [loc|]; [|discriminate].
  destruct (series _ msku_col) as [msku|]; [|discriminate].
  destruct (series _ disp_col) as [disp|]; [|discriminate].
  destruct (series _ bal_col) as [bal|]; [|discriminate].
  inversion H; subst recs. rewrite df_sellable_normalized.
  destruct (filter _ (rows df)) as [|row sel].
  - split; [intros _; reflexivity|]. split; [intro C; now elim C | discriminate].
  - split; [discriminate|]. split; [intros _; reflexivity | discriminate].
Qed.

Lemma main_of_input_records_witness :
  (exists recs, input_records ledger_basic = Some recs)
  /\ main ledger_basic = Shown (report_of [mkAgg (Str "A") (Str "X") 5]).
Proof.
  split; [eexists; reflexivity|].
  destruct (main_of_input_records ledger_basic _ eq_refl) as [_ [H _]].
  rewrite H; [reflexivity | discriminate].
Defined.

(** ** Aggregate rows and totals *)

Lemma bool_ext (p q : bool) : (p = true <-> q = true) -> p = q.
Proof.
  destruct p, q; intros [H1 H2]; try reflexivity;
    [symmetry; now apply H1 | now apply H2].
Qed.

Lemma is_eq_cell_true (a b : cell) : is_eq (cell_compare a b) = true <-> a = b.
Proof.
  rewrite is_eq_cell_compare. destruct (cell_eq_dec a b); split; congruence.
Qed.

Lemma cell_eqb_true (a b : cell) : cell_eqb a b = true <-> a = b /\ b <> NaN.
Proof.
  unfold cell_eqb.
  destruct a, b; try destruct (cell_eq_dec _ _); split;
    try discriminate; try (intros [? ?]; congruence);
    intros _; (split; [assumption | discriminate]).
Qed.

Lemma key_compare_eq (a b : cell * cell) : key_compare a b = Eq -> a = b.
Proof.
  destruct a as [a1 a2], b as [b1 b2]. unfold key_compare. simpl.
  destruct (cell_compare a1 b1) eqn:E; try discriminate.
  intro H. apply cell_compare_eq in E. apply cell_compare_eq in H. congruence.
Qed.

Lemma key_compare_refl (a : cell * cell) : key_compare a a = Eq.
Proof. unfold key_compare. now rewrite !cell_compare_refl. Qed.

Lemma cell_compare_lt_gt (a b : cell) :
  cell_compare a b = Lt -> cell_compare b a = Gt.
Proof.
  intro H. destruct (cell_compare b a) eqn:E; [| |reflexivity].
  - apply cell_compare_eq in E. subst. rewrite cell_compare_refl in H. discriminate.
  - pose proof (cell_compare_lt_trans _ _ _ H E) as C.
    rewrite cell_compare_refl in C. discriminate.
Qed.

Lemma key_compare_gt_lt (a b : cell * cell) :
  key_compare a b = Gt -> key_compare b a = Lt.
Proof.
  destruct a as [a1 a2], b as [b1 b2]. unfold key_compare. simpl.
  destruct (cell_compare a1 b1) eqn:E; try discriminate.
  - apply cell_compare_eq in E. subst. rewrite cell_compare_refl.
    apply cell_compare_gt_lt.
  - intros _. now rewrite (cell_compare_gt_lt _ _ E).
Qed.

Lemma key_compare_lt_trans (a b c : cell * cell) :
  key_compare a b = Lt -> key_compare b c = Lt -> key_compare a c = Lt.
Proof.
  destruct a as [a1 a2], b as [b1 b2], c as [c1 c2]. unfold key_compare. simpl.
  destruct (cell_compare a1 b1) eqn:E1; try discriminate;
    destruct (cell_compare b1 c1) eqn:E2; try discriminate; intros H1 H2.
  - apply cell_compare_eq in E1. apply cell_compare_eq in E2. subst.
    rewrite cell_compare_refl. eapply cell_compare_lt_trans; eassumption.
  - apply cell_compare_eq in E1. subst. now rewrite E2.
  - apply cell_compare_eq in E2. subst. now rewrite E1.
  - now rewrite (cell_compare_lt_trans _ _ _ E1 E2).
Qed.

Lemma is_eq_key_true (a b : cell * cell) : is_eq (key_compare a b) = true <-> a = b.
Proof.
  split.
  - destruct (key_compare a b) eqn:E; try discriminate.
    intros _. now apply key_compare_eq.
  - intros ->. now rewrite key_compare_refl.
Qed.

Lemma values_at_contributions (loc msku : cell) (l : list record) :
  values_at key_compare key_has_na (loc, msku) (group_items l) =
  contributions loc msku l.
Proof.
  unfold values_at, contributions, keyed, group_items.
  rewrite filter_filter, filter_map_comm, map_map. simpl. f_equal.
  apply filter_ext. intro r. apply bool_ext.
  rewrite !andb_true_iff, !cell_eqb_true, is_eq_key_true, negb_true_iff.
  unfold key_has_na. cbn [fst snd]. rewrite fillna_unknown_not_na. cbn [orb].
  split.
  - intros [Hna E]. inversion E; subst. repeat split.
    + intro C. pose proof (fillna_unknown_not_na (r_location r)) as F.
      rewrite C in F. discriminate.
    + intro C. rewrite C in Hna. discriminate.
  - intros [[E1 _] [E2 Hm]]. subst. split; [|reflexivity].
    destruct (r_msku r); [now elim Hm | reflexivity..].
Qed.

Section SortedKeys.
Context {K V : Type}.
Variable compare : K -> K -> comparison.
Hypothesis compare_refl : forall x, compare x x = Eq.

Lemma sorted_keys_nodup (g : list (K * V)) :
  StronglySorted (fun a b => compare (fst a) (fst b) = Lt) g -> NoDup (map fst g).
Proof.
  induction 1 as [|[k v] g Hs IH Hall]; simpl; constructor; [|exact IH].
  intro Hin. apply in_map_iff in Hin. destruct Hin as [[k' v'] [E Hin]].
  simpl in E. subst k'. rewrite Forall_forall in Hall.
  specialize (Hall _ Hin). simpl in Hall. rewrite compare_refl in Hall.
  discriminate.
Qed.

End SortedKeys.

Lemma aggregate_rows (l : list record) (loc msku : cell) (t : Z) :
  In (mkAgg loc msku t) (aggregate l) <->
  contributions loc msku l <> [] /\ t = sum64 (contributions loc msku l).
Proof.
  rewrite <- values_at_contributions.
  rewrite <- (groupby_sum_entries key_compare key_has_na key_compare_eq
                key_compare_refl key_compare_gt_lt key_compare_lt_trans).
  unfold aggregate. rewrite in_map_iff. split.
  - intros [[[a b] c] [E Hin]]. simpl in E. inversion E; subst. exact Hin.
  - intro Hin. exists ((loc, msku), t). split; [reflexivity | exact Hin].
Qed.

(** X6. The aggregate has one row per pair of location and MSKU: no pair
    occurs twice, a pair has a row exactly when some sellable row has that
    MSKU and, once filled, that location, and the balance of the row is the
    64-bit sum of the balances of those rows. *)
Theorem aggregate_one_row_per_pair (l : list record) :
  NoDup (map (fun r => (Location r, MSKU r)) (aggregate l))
  /\ (forall loc msku t,
        In (mkAgg loc msku t) (aggregate l) <->
        contributions loc msku l <> [] /\ t = sum64 (contributions loc msku l)).
Proof.
  split.
  - unfold aggregate. rewrite map_map. simpl.
    rewrite (map_ext _ fst) by (intros [[a b] c]; reflexivity).
    apply (sorted_keys_nodup key_compare key_compare_refl).
    apply (groupby_sum_sorted key_compare key_has_na
             key_compare_gt_lt key_compare_lt_trans).
  - intros loc msku t. apply aggregate_rows.
Qed.

Section GroupByEmpty.
Context {K : Type}.
Variable compare : K -> K -> comparison.
Variable has_na : K -> bool.




End GroupByEmpty.


Lemma zsum_perm (l l' : list Z) : Permutation l l' -> zsum l = zsum l'.
Proof. induction 1; simpl; lia. Qed.

Lemma sum64_perm (l l' : list Z) : Permutation l l' -> sum64 l = sum64 l'.
Proof. intro H. rewrite !sum64_wrap. f_equal. now apply zsum_perm. Qed.

Lemma keyed_locations (a : list agg_row) :
  map snd (keyed isna (map (fun r => (Location r, Balance r)) a)) =
  map Balance (filter (fun r => negb (isna (Location r))) a).
Proof. unfold keyed. now rewrite filter_map_comm, map_map. Qed.

Lemma filter_all {A : Type} (p : A -> bool) (l : list A) :
  Forall (fun x => p x = true) l -> filter p l = l.
Proof.
  induction 1 as [|x l Hx _ IH]; simpl; [reflexivity|]. now rewrite Hx, IH.
Qed.

Lemma aggregate_locations_present (l : list record) :
  filter (fun r => negb (isna (Location r))) (aggregate l) = aggregate l.
Proof.
  apply filter_all. unfold aggregate. rewrite Forall_map.
  eapply Forall_impl; [|apply groupby_sum_no_na].
  intros [[loc msku] t]. unfold key_has_na. simpl. intro H.
  apply orb_false_iff in H. destruct H as [H _]. now rewrite H.
Qed.

(** X8. The per-location totals add up, in 64-bit arithmetic, to the sum
    of the balances of the rows that have a location; for the aggregate the
    script builds, where every row has one, they add up to the total
    sellable quantity of the metrics. *)
Theorem location_totals_add_up :
  (forall a, sum64 (map snd (location_totals a)) =
             sum64 (map Balance (filter (fun r => negb (isna (Location r))) a)))
  /\ (forall l, sum64 (map snd (location_totals (aggregate l))) =
                grand_total (report_of (aggregate l))).
Proof.
  assert (H : forall a, sum64 (map snd (location_totals a)) =
             sum64 (map Balance (filter (fun r => negb (isna (Location r))) a))).
  { intro a. unfold location_totals.
    rewrite (sum64_perm _ _ (Permutation_map snd (sort_desc_perm _))).
    unfold location_sums. now rewrite groupby_sum_total, keyed_locations. }
  split; [exact H|].
  intro l. rewrite H, aggregate_locations_present. reflexivity.
Qed.

Lemma balances_at_nonempty (l : cell) (a : list agg_row) :
  balances_at l a <> [] <-> exists r, In r a /\ Location r = l.
Proof.
  unfold balances_at. split.
  - intro H. destruct (filter _ a) as [|r rest] eqn:E; [now elim H|].
    assert (Hin : In r (filter (fun r => if cell_eq_dec (Location r) l then true else false) a))
      by (rewrite E; now left).
    apply filter_In in Hin. destruct Hin as [Hin Hl].
    exists r. split; [exact Hin|]. now destruct (cell_eq_dec (Location r) l).
  - intros [r [Hin Hl]] H. apply map_eq_nil in H.
    assert (Hf : In r (filter (fun r => if cell_eq_dec (Location r) l then true else false) a)).
    { apply filter_In. split; [exact Hin|]. now destruct (cell_eq_dec (Location r) l). }
    rewrite H in Hf. exact Hf.
Qed.

Lemma locations_in (a : list agg_row) (l : cell) :
  In l (locations a) <-> l <> NaN /\ exists r, In r a /\ Location r = l.
Proof.
  unfold locations. rewrite in_map_iff. split.
  - intros [[l' t] [E Hin]]. simpl in E. subst l'.
    apply location_totals_entries in Hin. destruct Hin as [Hl [Hb _]].
    split; [exact Hl | now apply balances_at_nonempty].
  - intros [Hl Hr]. exists (l, sum64 (balances_at l a)). split; [reflexivity|].
    apply location_totals_entries. split; [exact Hl|].
    split; [now apply balances_at_nonempty | reflexivity].
Qed.

Lemma locations_nodup (a : list agg_row) : NoDup (locations a).
Proof.
  unfold locations, location_totals.
  eapply Permutation_NoDup.
  - symmetry. apply Permutation_map, sort_desc_perm.
  - apply (sorted_keys_nodup cell_compare cell_compare_refl).
    apply (groupby_sum_sorted cell_compare isna
             cell_compare_gt_lt cell_compare_lt_trans).
Qed.

(** X9. The list of warehouses names every location that some row of the
    aggregate has, a missing one apart, and names none twice; the
    warehouse count of the metrics is its length. *)
Theorem locations_are_distinct (a : list agg_row) :
  NoDup (locations a)
  /\ (forall l, In l (locations a) <->
                l <> NaN /\ exists r, In r a /\ Location r = l)
  /\ total_warehouses (report_of a) = List.length (locations a).
Proof.
  split; [apply locations_nodup|]. split; [apply locations_in | reflexivity].
Qed.

(** ** Card grid *)

Lemma all_some_map_some {A : Type} (l : list (option A)) (xs : list A) :
  all_some l = Some xs <-> l = map Some xs.
Proof.
  revert xs; induction l as [|[x|] l IH]; intro xs; simpl.
  - split; [intros [= <-]; reflexivity | destruct xs; [reflexivity | discriminate]].
  - destruct (all_some l) as [ys|] eqn:E; simpl.
    + split.
      * intros [= <-]. simpl. f_equal. now apply IH.
      * destruct xs as [|y xs]; [discriminate|]. simpl. intros [= <- H].
        apply IH in H. now inversion H.
    + split; [discriminate|].
      destruct xs as [|y xs]; [discriminate|]. simpl. intros [= <- H].
      apply IH in H. discriminate.
  - split; [discriminate|]. destruct xs; discriminate.
Qed.


Lemma all_some_rows {A B : Type} (f : A -> option B) (cs : list (list A))
  (grid : list (list B)) :
  all_some (map (fun c => all_some (map f c)) cs) = Some grid ->
  map f (List.concat cs) = map Some (List.concat grid)
  /\ Forall2 (fun c row => List.length row = List.length c) cs grid.
Proof.
  revert grid; induction cs as [|c cs IH]; intro grid; simpl.
  - intros [= <-]. split; [reflexivity | constructor].
  - destruct (all_some (map f c)) as [row|] eqn:E; [|discriminate].
    destruct (all_some (map _ cs)) as [rows|]; [|discriminate].
    simpl. intros [= <-]. destruct (IH rows eq_refl) as [H1 H2].
    apply all_some_map_some in E. simpl. split.
    + now rewrite !map_app, E, H1.
    + constructor; [|exact H2].
      rewrite <- (length_map f c), E. now rewrite length_map.
Qed.

Lemma forall2_length_transfer {A B : Type} (P : nat -> Prop)
  (cs : list (list A)) (grid : list (list B)) :
  Forall2 (fun c row => List.length row = List.length c) cs grid ->
  Forall (fun c => P (List.length c)) cs ->
  Forall (fun row => P (List.length row)) grid.
Proof.
  induction 1 as [|c row cs grid E _ IH]; intro H; constructor;
    inversion H; subst; [now rewrite E | now apply IH].
Qed.

Lemma forall2_removelast {A B : Type} (R : A -> B -> Prop) (l : list A) (l' : list B) :
  Forall2 R l l' -> Forall2 R (removelast l) (removelast l').
Proof.
  induction 1 as [|x y l l' Hxy H IH]; simpl; [constructor|].
  destruct H as [|x' y' l l' Hxy' H]; [constructor|].
  constructor; [exact Hxy | exact IH].
Qed.

(** X10. When the grid of cards is drawn, its cards are, row after row,
    those of the listed locations in their order, one each; the rows number
    a third of the locations, rounded up; each row has one to three cards,
    so that [cols[i]] exists, and every row but the last has three. *)
Theorem card_grid_rows (a : list agg_row) (locs : list cell) (grid : list (list card)) :
  card_grid a locs = Some grid ->
  map (render_card a) locs = map Some (List.concat grid)
  /\ List.length grid = ((List.length locs + 2) / 3)%nat
  /\ Forall (fun row => (1 <= List.length row <= 3)%nat) grid
  /\ Forall (fun row => List.length row = 3%nat) (removelast grid).
Proof.
  unfold card_grid, chunks. intro H.
  apply all_some_rows in H. destruct H as [H1 H2].
  rewrite (chunks_concat_from locs 3 _ 0), skipn_O in H1 by lia.
  split; [exact H1|]. split.
  { rewrite <- (Forall2_length H2), length_map, chunks_count_from by lia.
    now rewrite Nat.sub_0_r. }
  split.
  - apply (forall2_length_transfer (fun n => (1 <= n <= 3)%nat) _ _ H2).
    apply chunks_sizes_from. lia.
  - apply (forall2_length_transfer (fun n => n = 3%nat) _ _ (forall2_removelast _ _ _ H2)).
    apply chunks_full_from.
Qed.

Lemma card_grid_rows_witness :
  exists grid,
    card_grid agg_three (locations agg_three) = Some grid
    /\ List.length grid = 1%nat
    /\ List.length (List.concat grid) = 2%nat.
Proof.
  destruct (card_grid agg_three (locations agg_three)) as [grid|] eqn:E;
    [|vm_compute in E; discriminate].
  exists grid. split; [reflexivity|].
  destruct (card_grid_rows _ _ _ E) as [H1 [H2 _]].
  split; [rewrite H2; reflexivity|].
  rewrite <- (length_map Some), <- H1, length_map. reflexivity.
Defined.



(** ** The card of one location *)

Section SortByOrder.
Context {A : Type}.
Variable key : A -> Z.

Lemma insert_by_desc_perm (x : A) (l : list A) :
  Permutation (insert_by_desc key x l) (x :: l).
Proof.
  induction l as [|y l IH]; simpl; [reflexivity|].
  destruct (key y <? key x); [reflexivity|].
  rewrite IH. apply perm_swap.
Qed.

Lemma sort_by_desc_perm (l : list A) : Permutation (sort_by_desc key l) l.
Proof.
  induction l as [|x l IH]; simpl; [reflexivity|].
  rewrite insert_by_desc_perm. now constructor.
Qed.

Lemma insert_by_desc_sorted (x : A) (l : list A) :
  StronglySorted (fun a b => key b <= key a) l ->
  StronglySorted (fun a b => key b <= key a) (insert_by_desc key x l).
Proof.
  induction l as [|y l IH]; simpl; intro Hs.
  - repeat constructor.
  - inversion Hs as [|? ? Hs' Hall]; subst.
    destruct (key y <? key x) eqn:E.
    + apply Z.ltb_lt in E. constructor; [exact Hs|].
      constructor; [lia|]. eapply Forall_impl; [|exact Hall].
      intros b Hb. simpl in Hb. lia.
    + apply Z.ltb_ge in E. constructor; [apply IH, Hs'|].
      eapply Permutation_Forall; [symmetry; apply insert_by_desc_perm|].
      constructor; [exact E | exact Hall].
Qed.

Lemma sort_by_desc_sorted (l : list A) :
  StronglySorted (fun a b => key b <= key a) (sort_by_desc key l).
Proof.
  induction l as [|x l IH]; simpl; [constructor | now apply insert_by_desc_sorted].
Qed.

End SortByOrder.

Lemma cell_eqb_filter (loc : cell) (a : list agg_row) :
  loc <> NaN ->
  filter (fun r => cell_eqb (Location r) loc) a =
  filter (fun r => if cell_eq_dec (Location r) loc then true else false) a.
Proof.
  intro Hna. apply filter_ext. intro r. apply bool_ext.
  rewrite cell_eqb_true. destruct (cell_eq_dec (Location r) loc); split;
    try discriminate; try tauto.
Qed.

Lemma loc_frame_perm (a : list agg_row) (loc : cell) :
  Permutation (loc_frame a loc) (filter (fun r => cell_eqb (Location r) loc) a).
Proof. apply sort_by_desc_perm. Qed.

Lemma loc_frame_in (a : list agg_row) (loc : cell) (r : agg_row) :
  In r (loc_frame a loc) <-> In r a /\ Location r = loc /\ loc <> NaN.
Proof.
  split.
  - intro H. apply (Permutation_in _ (loc_frame_perm a loc)), filter_In in H.
    destruct H as [H E]. apply cell_eqb_true in E. tauto.
  - intros [H [E Hna]].
    apply (Permutation_in _ (Permutation_sym (loc_frame_perm a loc))), filter_In.
    split; [exact H|]. apply cell_eqb_true. tauto.
Qed.

(** X12. The frame of a card holds the rows of the aggregate at that
    location, each once, by decreasing balance, and none when the label is
    a missing value; its 64-bit total does not depend on the order the sort
    leaves the rows in. *)
Theorem loc_frame_rows (a : list agg_row) (loc : cell) :
  StronglySorted (fun x y => Balance y <= Balance x) (loc_frame a loc)
  /\ Permutation (loc_frame a loc) (filter (fun r => cell_eqb (Location r) loc) a)
  /\ (forall r, In r (loc_frame a loc) <-> In r a /\ Location r = loc /\ loc <> NaN)
  /\ sum64 (map Balance (loc_frame a loc)) =
     sum64 (map Balance (filter (fun r => cell_eqb (Location r) loc) a)).
Proof.
  split; [apply sort_by_desc_sorted|]. split; [apply loc_frame_perm|].
  split; [apply loc_frame_in|].
  apply sum64_perm, Permutation_map, loc_frame_perm.
Qed.

Lemma join_head (sep p : string) (rest : list string) :
  exists tail, PyStr.join sep (p :: rest) = p ++ tail.
Proof.
  destruct rest as [|q rest]; simpl.
  - exists EmptyString. induction p as [|c p IH]; simpl; [reflexivity|].
    now rewrite <- IH.
  - eexists. reflexivity.
Qed.

Lemma loc_frame_total (a : list agg_row) (loc : cell) :
  In loc (locations a) ->
  loc_frame a loc <> []
  /\ In (loc, sum64 (map Balance (loc_frame a loc))) (location_totals a).
Proof.
  intro Hin. apply locations_in in Hin. destruct Hin as [Hna [r [Hr Hl]]]. split.
  - intro E. assert (H : In r (loc_frame a loc)) by (apply loc_frame_in; tauto).
    rewrite E in H. exact H.
  - apply location_totals_entries. split; [exact Hna|].
    split; [apply balances_at_nonempty; now exists r|].
    rewrite (sum64_perm _ _ (Permutation_map Balance (loc_frame_perm a loc))).
    unfold balances_at. now rewrite cell_eqb_filter.
Qed.

(** X13. The card of a listed location shows the total the ranking of the
    locations has for it and one line per row of its frame; the text for a
    location without SKUs is never shown for a listed location. *)
Theorem card_of_listed_location (a : list agg_row) (name : string) :
  In (Str name) (locations a) ->
  exists c t,
    render_card a (Str name) = Some c
    /\ In (Str name, t) (location_totals a)
    /\ c_caption c = "Total: **" ++ str_of_int t ++ "**"
    /\ c_body c = PyStr.join newline (map sku_line (loc_frame a (Str name)))
    /\ c_body c <> no_skus_text.
Proof.
  intro Hin. destruct (loc_frame_total a (Str name) Hin) as [Hne Ht].
  eexists. exists (sum64 (map Balance (loc_frame a (Str name)))).
  split; [reflexivity|]. split; [exact Ht|]. split; [reflexivity|].
  cbn [c_body]. destruct (loc_frame a (Str name)) as [|r rows]; [now elim Hne|].
  cbn [map]. split; [reflexivity|].
  destruct (join_head newline (sku_line r) (map sku_line rows)) as [tail E].
  rewrite E. unfold sku_line, no_skus_text. cbn [append]. discriminate.
Qed.

Lemma card_of_listed_location_witness :
  In (Str "DEL4") (locations agg_three)
  /\ exists c, render_card agg_three (Str "DEL4") = Some c
               /\ c_caption c = "Total: **6**"
               /\ c_body c <> no_skus_text.
Proof.
  assert (H : In (Str "DEL4") (locations agg_three)) by (vm_compute; tauto).
  split; [exact H|].
  destruct (card_of_listed_location agg_three "DEL4" H) as [c [t [E [_ [_ [_ B]]]]]].
  exists c. split; [exact E|]. split; [|exact B].
  vm_compute in E. inversion E. reflexivity.
Defined.

(** ** Widget keys, file names and CSV of the cards *)

Lemma rendered_names (a : list agg_row) (locs : list cell) (cards : list card) :
  map (render_card a) locs = map Some cards ->
  exists names,
    locs = map Str names
    /\ map c_key cards = map (append "dl_") names
    /\ map c_file_name cards =
       map (fun n => replace_char " " "_" n ++ "_sellable.csv") names.
Proof.
  revert cards; induction locs as [|loc locs IH]; intros cards H.
  - destruct cards; [|discriminate]. exists []. repeat split.
  - destruct cards as [|c cards]; [discriminate|]. simpl in H.
    injection H as Hc Hrest. destruct (IH cards Hrest) as [names [E1 [E2 E3]]].
    destruct loc as [|name|z]; try discriminate.
    unfold render_card in Hc. injection Hc as <-.
    exists (name :: names). cbn [map c_key c_file_name].
    now rewrite E1, E2, E3.
Qed.

Lemma sany_app (p : ascii -> bool) (s t : string) :
  PyStr.sany p (s ++ t) = PyStr.sany p s || PyStr.sany p t.
Proof.
  induction s as [|c s IH]; simpl; [reflexivity|]. now rewrite IH, orb_assoc.
Qed.

Lemma replace_char_gone (old new : ascii) (s : string) :
  old <> new -> PyStr.sany (Ascii.eqb old) (replace_char old new s) = false.
Proof.
  intro Hne. unfold replace_char.
  induction s as [|c s IH]; simpl; [reflexivity|].
  rewrite IH, orb_false_r. destruct (Ascii.eqb c old) eqn:E.
  - now apply Ascii.eqb_neq.
  - rewrite Ascii.eqb_sym. exact E.
Qed.

Lemma nodup_map_injective {A B : Type} (f : A -> B) (l : list A) :
  (forall x y, f x = f y -> x = y) -> NoDup l -> NoDup (map f l).
Proof.
  intros Hf. induction 1 as [|x l Hx _ IH]; simpl; constructor; [|exact IH].
  intro H. apply in_map_iff in H. destruct H as [y [E Hy]].
  apply Hf in E. now subst y.
Qed.

(** X14. The download buttons of a drawn grid have keys that differ from
    one card to the next, as Streamlit asks of widget keys, and file names
    without a space. *)
Theorem card_keys_distinct (a : list agg_row) (grid : list (list card)) :
  card_grid a (locations a) = Some grid ->
  NoDup (map c_key (List.concat grid))
  /\ Forall (fun c => PyStr.sany (Ascii.eqb " ") (c_file_name c) = false)
            (List.concat grid).
Proof.
  unfold card_grid, chunks. intro H. apply all_some_rows in H.
  destruct H as [H _].
  rewrite (chunks_concat_from (locations a) 3 _ 0), skipn_O in H by lia.
  destruct (rendered_names _ _ _ H) as [names [E1 [E2 E3]]]. split.
  - rewrite E2. pose proof (locations_nodup a) as N. rewrite E1 in N.
    apply NoDup_map_inv in N.
    apply nodup_map_injective; [|exact N].
    intros x y E. now inversion E.
  - rewrite <- Forall_map with (f := c_file_name)
      (P := fun n => PyStr.sany (Ascii.eqb " ") n = false).
    rewrite E3, Forall_map. apply Forall_forall. intros n _.
    rewrite sany_app, replace_char_gone by discriminate. reflexivity.
Qed.

Lemma card_keys_distinct_witness :
  exists grid,
    card_grid agg_three (locations agg_three) = Some grid
    /\ NoDup (map c_key (List.concat grid)).
Proof.
  destruct (card_grid agg_three (locations agg_three)) as [grid|] eqn:E;
    [|vm_compute in E; discriminate].
  exists grid. split; [reflexivity|].
  exact (proj1 (card_keys_distinct agg_three grid E)).
Defined.

Lemma loc_frame_forall (P : agg_row -> Prop) (a : list agg_row) (loc : cell) :
  Forall P a -> Forall P (loc_frame a loc).
Proof.
  intro H. apply Forall_forall. intros r Hr. apply loc_frame_in in Hr.
  rewrite Forall_forall in H. apply H. tauto.
Qed.

(** X15. The CSV a card offers splits back, under the tokenizer of
    [read_csv], into the header and one line of three fields per row of the
    card's frame, in the order of the card, provided no location or MSKU
    holds a carriage return. *)
Theorem card_csv_lines (a : list agg_row) (loc : cell) (c : card) :
  Forall (fun r => no_cr (cell_text (Location r)) /\ no_cr (cell_text (MSKU r))) a ->
  render_card a loc = Some c ->
  tokenize (c_csv c) = Some (csv_columns :: map row_text (loc_frame a loc))
  /\ Forall (fun line => List.length line = 3%nat)
            (csv_columns :: map row_text (loc_frame a loc)).
Proof.
  intros Hcr Hc. destruct loc as [|name|z]; try discriminate.
  unfold render_card in Hc. injection Hc as <-. cbn [c_csv]. split.
  - apply tokenize_to_csv. now apply loc_frame_forall.
  - constructor; [reflexivity|]. rewrite Forall_map. apply Forall_forall.
    intros r _. reflexivity.
Qed.

Lemma card_csv_lines_witness :
  Forall (fun r => no_cr (cell_text (Location r)) /\ no_cr (cell_text (MSKU r)))
         agg_three
  /\ exists c, render_card agg_three (Str "BLR7") = Some c
               /\ tokenize (c_csv c) =
                  Some [ ["Location"; "MSKU"; "Ending Warehouse Balance"];
                         ["BLR7"; "XYZ-2"; "10"]; ["BLR7"; "ABC-1"; "4"] ].
Proof.
  assert (H : Forall (fun r => no_cr (cell_text (Location r))
                               /\ no_cr (cell_text (MSKU r))) agg_three)
    by (repeat constructor).
  split; [exact H|]. eexists. split; [reflexivity|].
  exact (proj1 (card_csv_lines agg_three (Str "BLR7") _ H eq_refl)).
Defined.

(** ** Sub-frames of a group-by *)

Section GroupFramesOrder.
Context {K A : Type}.
Variable compare : K -> K -> comparison.
Variable has_na : K -> bool.
Variable key : A -> K.
Hypothesis compare_eq : forall x y, compare x y = Eq -> x = y.
Hypothesis compare_refl : forall x, compare x x = Eq.
Hypothesis compare_gt_lt : forall x y, compare x y = Gt -> compare y x = Lt.
Hypothesis compare_lt_trans :
  forall x y z, compare x y = Lt -> compare y z = Lt -> compare x z = Lt.

Let frame_lt (a b : K * list A) : Prop := compare (fst a) (fst b) = Lt.
Let add_row (g : list (K * list A)) (x : A) : list (K * list A) :=
  if has_na (key x) then g else group_insert compare (key x) x g.

Lemma group_insert_keys (P : K -> Prop) (k : K) (x : A) (g : list (K * list A)) :
  P k -> Forall (fun kx => P (fst kx)) g ->
  Forall (fun kx => P (fst kx)) (group_insert compare k x g).
Proof.
  intro Hk. induction g as [|[k' xs] g IH]; simpl; intro H.
  - repeat constructor. exact Hk.
  - inversion H; subst. destruct (compare k k').
    + constructor; assumption.
    + constructor; [exact Hk | exact H].
    + constructor; [assumption | now apply IH].
Qed.

Lemma group_insert_sorted (k : K) (x : A) (g : list (K * list A)) :
  StronglySorted frame_lt g -> StronglySorted frame_lt (group_insert compare k x g).
Proof.
  induction g as [|[k' xs] g IH]; simpl; intro Hs.
  - repeat constructor.
  - inversion Hs as [|? ? Hs' Hall]; subst.
    destruct (compare k k') eqn:E.
    + constructor; assumption.
    + constructor; [exact Hs|]. constructor; [exact E|].
      eapply Forall_impl; [|exact Hall].
      intros [k2 t2] H. unfold frame_lt in *. simpl in *.
      eapply compare_lt_trans; eassumption.
    + constructor; [apply IH, Hs'|].
      apply (group_insert_keys (fun y => compare k' y = Lt));
        [apply compare_gt_lt, E | exact Hall].
Qed.

Lemma group_frame_above (k : K) (g : list (K * list A)) :
  Forall (fun kx => compare k (fst kx) = Lt) g -> group_frame compare k g = None.
Proof.
  induction g as [|[k' xs] g IH]; simpl; intro H; [reflexivity|].
  inversion H as [|? ? E H']; subst. simpl in E. rewrite E. simpl. auto.
Qed.

Lemma group_frame_insert_same (k : K) (x : A) (g : list (K * list A)) :
  StronglySorted frame_lt g ->
  group_frame compare k (group_insert compare k x g) =
  Some ((match group_frame compare k g with Some xs => xs | None => [] end)
        ++ [x])%list.
Proof.
  induction g as [|[k' xs] g IH]; simpl; intro Hs.
  - now rewrite compare_refl.
  - inversion Hs as [|? ? Hs' Hall]; subst.
    destruct (compare k k') eqn:E; simpl.
    + now rewrite E.
    + rewrite compare_refl. simpl.
      rewrite group_frame_above; [reflexivity|].
      eapply Forall_impl; [|exact Hall].
      intros [k2 t2] H. unfold frame_lt in H. simpl in *.
      eapply compare_lt_trans; eassumption.
    + rewrite E. simpl. apply IH, Hs'.
Qed.

Lemma group_frame_insert_other (k k0 : K) (x : A) (g : list (K * list A)) :
  k <> k0 ->
  group_frame compare k (group_insert compare k0 x g) = group_frame compare k g.
Proof.
  intro Hne.
  assert (Hk0 : is_eq (compare k k0) = false).
  { destruct (compare k k0) eqn:E; [|reflexivity..].
    exfalso. apply Hne, compare_eq, E. }
  induction g as [|[k' xs] g IH]; simpl.
  - now rewrite Hk0.
  - destruct (compare k0 k') eqn:E; simpl.
    + apply compare_eq in E. subst k'. now rewrite Hk0.
    + now rewrite Hk0.
    + now rewrite IH.
Qed.

Lemma fold_rows_sorted (frame : list A) (g : list (K * list A)) :
  StronglySorted frame_lt g -> StronglySorted frame_lt (fold_left add_row frame g).
Proof.
  revert g; induction frame as [|x frame IH]; intros g Hs; simpl.
  - exact Hs.
  - apply IH. unfold add_row.
    destruct (has_na (key x)); [exact Hs | now apply group_insert_sorted].
Qed.

Lemma fold_rows_frame (k : K) (frame : list A) (g : list (K * list A)) :
  StronglySorted frame_lt g ->
  group_frame compare k (fold_left add_row frame g) =
  match rows_at compare has_na key k frame with
  | [] => group_frame compare k g
  | _ :: _ =>
      Some ((match group_frame compare k g with Some xs => xs | None => [] end)
            ++ rows_at compare has_na key k frame)%list
  end.
Proof.
  revert g; induction frame as [|x frame IH]; intros g Hs.
  - reflexivity.
  - cbn [fold_left]. unfold rows_at in *. cbn [filter].
    unfold add_row at 2.
    destruct (has_na (key x)) eqn:Ena; cbn [negb andb].
    + apply IH, Hs.
    + rewrite IH by now apply group_insert_sorted.
      destruct (compare (key x) k) eqn:E; cbn [is_eq].
      * apply compare_eq in E. subst k.
        rewrite group_frame_insert_same by exact Hs.
        destruct (filter _ frame); [reflexivity|].
        now rewrite <- app_assoc.
      * rewrite group_frame_insert_other; [reflexivity|].
        intros ->. rewrite compare_refl in E. discriminate.
      * rewrite group_frame_insert_other; [reflexivity|].
        intros ->. rewrite compare_refl in E. discriminate.
Qed.

Lemma groupby_frames_sorted (frame : list A) :
  StronglySorted frame_lt (groupby_frames compare has_na key frame).
Proof. apply fold_rows_sorted. constructor. Qed.

Lemma sorted_in_group_frame (k : K) (xs : list A) (g : list (K * list A)) :
  StronglySorted frame_lt g ->
  (In (k, xs) g <-> group_frame compare k g = Some xs).
Proof.
  induction g as [|[k' xs'] g IH]; simpl; intro Hs.
  - split; [intros [] | discriminate].
  - inversion Hs as [|? ? Hs' Hall]; subst. split.
    + intros [H|H].
      * inversion H; subst. now rewrite compare_refl.
      * assert (Hlt : compare k' k = Lt).
        { rewrite Forall_forall in Hall. exact (Hall _ H). }
        destruct (compare k k') eqn:E; simpl.
        -- apply compare_eq in E. subst k'. rewrite compare_refl in Hlt.
           discriminate.
        -- now apply IH.
        -- now apply IH.
    + destruct (compare k k') eqn:E; simpl.
      * intros [= ->]. apply compare_eq in E. subst k'. now left.
      * intro H. right. now apply IH.
      * intro H. right. now apply IH.
Qed.

(** A key has a sub-frame exactly when some row is filed under it, and the
    sub-frame holds those rows in the order of the frame. *)
Lemma groupby_frames_entries (k : K) (xs : list A) (frame : list A) :
  In (k, xs) (groupby_frames compare has_na key frame) <->
  rows_at compare has_na key k frame <> [] /\
  xs = rows_at compare has_na key k frame.
Proof.
  rewrite (sorted_in_group_frame k xs _ (groupby_frames_sorted frame)).
  unfold groupby_frames. fold add_row.
  rewrite (fold_rows_frame k frame []) by constructor.
  destruct (rows_at compare has_na key k frame) as [|y ys]; simpl.
  - split; [discriminate | intros [H _]; now elim H].
  - split.
    + intros [= <-]. split; [discriminate | reflexivity].
    + intros [_ ->]. reflexivity.
Qed.




End GroupFramesOrder.

(** ** PDF report *)

Lemma isna_false_iff (c : cell) : isna c = false <-> c <> NaN.
Proof. destruct c; simpl; split; congruence. Qed.

Lemma rows_at_location (loc : cell) (df : list agg_row) :
  rows_at cell_compare isna Location loc df =
  filter (fun r => cell_eqb (Location r) loc) df.
Proof.
  unfold rows_at. apply filter_ext. intro r. apply bool_ext.
  rewrite andb_true_iff, negb_true_iff, isna_false_iff, is_eq_cell_true,
    cell_eqb_true.
  split; [intros [H E]; subst; tauto | intros [E H]; subst; tauto].
Qed.

Lemma pdf_groups_entries (df : list agg_row) (loc : cell) (rows : list agg_row) :
  In (loc, rows) (groupby_frames cell_compare isna Location df) <->
  rows <> [] /\ rows = filter (fun r => cell_eqb (Location r) loc) df.
Proof.
  rewrite (groupby_frames_entries cell_compare isna Location cell_compare_eq
             cell_compare_refl cell_compare_gt_lt cell_compare_lt_trans).
  rewrite rows_at_location. split; intros [H ->]; split; auto.
Qed.

Lemma filter_nonempty {A : Type} (p : A -> bool) (l : list A) :
  filter p l <> [] <-> exists x, In x l /\ p x = true.
Proof.
  split.
  - destruct (filter p l) as [|x rest] eqn:E; [intro H; now elim H|].
    intros _. exists x. apply filter_In. rewrite E. now left.
  - intros [x Hx] E. apply filter_In in Hx. rewrite E in Hx. exact Hx.
Qed.

Lemma pdf_groups_locations (df : list agg_row) :
  Permutation (map fst (groupby_frames cell_compare isna Location df))
              (locations df).
Proof.
  apply NoDup_Permutation.
  - apply (sorted_keys_nodup cell_compare cell_compare_refl).
    apply (groupby_frames_sorted cell_compare isna Location
             cell_compare_gt_lt cell_compare_lt_trans).
  - apply locations_nodup.
  - intro loc. rewrite locations_in, in_map_iff. split.
    + intros [[loc' rows] [E H]]. simpl in E. subst loc'.
      apply pdf_groups_entries in H. destruct H as [H ->].
      apply filter_nonempty in H. destruct H as [r [Hr E]].
      apply cell_eqb_true in E. destruct E as [E Hna].
      split; [exact Hna | now exists r].
    + intros [Hna [r [Hr E]]].
      exists (loc, filter (fun r => cell_eqb (Location r) loc) df).
      split; [reflexivity|]. apply pdf_groups_entries.
      split; [|reflexivity]. apply filter_nonempty. exists r.
      split; [exact Hr|]. now apply cell_eqb_true.
Qed.


Lemma pdf_sections_length (groups : list (cell * list agg_row)) :
  List.length (flat_map pdf_section groups) = (3 * List.length groups)%nat.
Proof. induction groups as [|g groups IH]; simpl; [reflexivity | rewrite IH; lia]. Qed.

(** X17. The elements of the report are the three of the heading and three
    per listed location; its tables are those of the listed locations, one
    each, with the header row and a row per row of the frame at the
    location, in the order of the frame; every row of a table has as many
    cells as the table has column widths. *)
Theorem pdf_report_tables (df : list agg_row) (timestamp : string) :
  List.length (generate_pdf_report df timestamp) =
    (3 + 3 * List.length (locations df))%nat
  /\ (forall data widths style,
        In (Table data widths style) (generate_pdf_report df timestamp) <->
        exists loc,
          In loc (locations df)
          /\ data = table_data (filter (fun r => cell_eqb (Location r) loc) df)
          /\ widths = [300; 100] /\ style = report_table_style)
  /\ (forall data widths style,
        In (Table data widths style) (generate_pdf_report df timestamp) ->
        Forall (fun row => List.length row = List.length widths) data).
Proof.
  assert (T : forall data widths style,
        In (Table data widths style) (generate_pdf_report df timestamp) <->
        exists loc,
          In loc (locations df)
          /\ data = table_data (filter (fun r => cell_eqb (Location r) loc) df)
          /\ widths = [300; 100] /\ style = report_table_style).
  { intros data widths style. unfold generate_pdf_report.
    rewrite in_app_iff, in_flat_map. split.
    - intros [H|[[loc rows] [Hg H]]].
      + simpl in H. destruct H as [H|[H|[H|[]]]]; discriminate.
      + simpl in H. destruct H as [H|[H|[H|[]]]]; try discriminate.
        injection H as <- <- <-. exists loc.
        assert (Hl : In loc (locations df)).
        { apply (Permutation_in _ (pdf_groups_locations df)), in_map_iff.
          now exists (loc, rows). }
        apply pdf_groups_entries in Hg. destruct Hg as [_ ->]. auto.
    - intros [loc [Hl [-> [-> ->]]]]. right.
      exists (loc, filter (fun r => cell_eqb (Location r) loc) df). split.
      + apply (Permutation_in _ (Permutation_sym (pdf_groups_locations df))),
          in_map_iff in Hl.
        destruct Hl as [[loc' rows] [E Hg]]. simpl in E. subst loc'.
        pose proof Hg as Hg'. apply pdf_groups_entries in Hg'.
        destruct Hg' as [_ <-]. exact Hg.
      + simpl. tauto. }
  split.
  { unfold generate_pdf_report. rewrite length_app, pdf_sections_length.
    rewrite <- (Permutation_length (pdf_groups_locations df)), length_map.
    reflexivity. }
  split; [exact T|].
  intros data widths style H. apply T in H.
  destruct H as [loc [_ [-> [-> _]]]]. unfold table_data.
  constructor; [reflexivity|]. rewrite Forall_map. apply Forall_forall.
  intros r _. reflexivity.
Qed.

(** ** The search box, whatever is typed *)




Lemma smap_smap (f g : ascii -> ascii) (s : string) :
  PyStr.smap f (PyStr.smap g s) = PyStr.smap (fun c => f (g c)) s.
Proof. induction s as [|c s IH]; simpl; [reflexivity | now rewrite IH]. Qed.

Lemma smap_ext (f g : ascii -> ascii) (s : string) :
  (forall c, f c = g c) -> PyStr.smap f s = PyStr.smap g s.
Proof. intro H. induction s as [|c s IH]; simpl; [reflexivity | now rewrite H, IH]. Qed.

Lemma isspace_lower_char (c : ascii) :
  PyStr.isspace (PyStr.lower_char c) = PyStr.isspace c.
Proof. by_ascii_cases c. Qed.

Lemma lower_upper_char (c : ascii) :
  PyStr.lower_char (PyStr.upper_char c) = PyStr.lower_char c.
Proof. by_ascii_cases c. Qed.

Lemma lower_char_idem (c : ascii) :
  PyStr.lower_char (PyStr.lower_char c) = PyStr.lower_char c.
Proof. by_ascii_cases c. Qed.

Lemma lstrip_blank (s : string) :
  PyStr.sall PyStr.isspace s = true -> PyStr.lstrip s = EmptyString.
Proof.
  induction s as [|c s IH]; simpl; [reflexivity|].
  destruct (PyStr.isspace c); simpl; [exact IH | discriminate].
Qed.

Lemma search_text_of (typed typed' : string) (v : view) :
  PyStr.lower (PyStr.strip typed') = PyStr.lower (PyStr.strip typed) ->
  apply_search typed' v = apply_search typed v.
Proof. intro E. unfold apply_search. now rewrite E. Qed.

(** X19. The search does not tell capitals from small letters in what is
    typed (ASCII letters, as everywhere in this model), nor blanks around
    it; a text of blanks only leaves the view as it is. *)
Theorem search_text_normalized (typed : string) (v : view) :
  apply_search (PyStr.upper typed) v = apply_search typed v
  /\ apply_search (PyStr.lower typed) v = apply_search typed v
  /\ apply_search (PyStr.strip typed) v = apply_search typed v
  /\ (PyStr.sall PyStr.isspace typed = true -> apply_search typed v = Some v).
Proof.
  split; [|split; [|split]].
  - apply search_text_of. unfold PyStr.upper, PyStr.lower.
    rewrite (strip_smap _ isspace_upper_char), smap_smap.
    apply smap_ext, lower_upper_char.
  - apply search_text_of. unfold PyStr.lower.
    rewrite (strip_smap _ isspace_lower_char).
    apply smap_idem, lower_char_idem.
  - apply search_text_of. now rewrite strip_idem.
  - intro H. unfold apply_search, PyStr.strip. now rewrite (lstrip_blank _ H).
Qed.

(** ** Reader: the cursor *)

(** X20. The reader gives the same table or error, and leaves the cursor
    at the same place, wherever the cursor stood when it was called: both
    are those of one of the four attempts run from the first byte, and the
    cursor is not put back after that attempt. *)
Theorem read_csv_safe_cursor
  (table exn : Type) (content : list Byte.byte)
  (read_csv : Reader.kwargs -> list Byte.byte -> nat -> (table + exn) * nat)
  (cur : nat) :
  Reader._read_csv_safe content read_csv cur =
    Reader._read_csv_safe content read_csv 0%nat
  /\ exists kw,
       In kw Reader.attempts
       /\ Reader._read_csv_safe content read_csv cur = read_csv kw content 0%nat.
Proof.
  split; [reflexivity|].
  cbv [Reader._read_csv_safe Reader.try_encodings Reader.bind Reader.seek
       Reader.call_read_csv Reader.ret Reader.attempts].
  destruct (read_csv (Reader.strict None) content 0%nat) as [[t|e] c1] eqn:E1.
  { exists (Reader.strict None). split; [simpl; tauto | now rewrite E1]. }
  destruct (read_csv (Reader.strict (Some "latin1")) content 0%nat)
    as [[t|e'] c2] eqn:E2.
  { exists (Reader.strict (Some "latin1")). split; [simpl; tauto | now rewrite E2]. }
  destruct (read_csv (Reader.strict (Some "utf-8")) content 0%nat)
    as [[t|e''] c3] eqn:E3.
  { exists (Reader.strict (Some "utf-8")). split; [simpl; tauto | now rewrite E3]. }
  exists Reader.lenient. split; [simpl; tauto | reflexivity].
Qed.

(** ** Balances with a misplaced sign *)

Lemma minus_not_digit (c : ascii) :
  PyStr.isdigit c = true -> Ascii.eqb "-" c = false.
Proof. by_ascii_cases c. Qed.

Lemma take_digits_minus (s : string) :
  PyStr.sany (Ascii.eqb "-") s = true ->
  PyStr.sany (Ascii.eqb "-") (snd (take_digits s)) = true.
Proof.
  induction s as [|c s IH]; cbn [PyStr.sany take_digits]; [discriminate|].
  destruct (PyStr.isdigit c) eqn:D; [|intro H; exact H].
  rewrite (minus_not_digit c D). cbn [orb]. intro H. apply IH in H.
  destruct (take_digits s) as [d r]. exact H.
Qed.

Lemma parse_unsigned_minus (s : string) :
  PyStr.sany (Ascii.eqb "-") s = true -> parse_unsigned s = None.
Proof.
  intro H. apply take_digits_minus in H. unfold parse_unsigned.
  destruct (take_digits s) as [ip r]. cbn [snd] in H.
  destruct r as [|c r']; [discriminate|]. cbn [PyStr.sany] in H.
  destruct (Ascii.eqb c ".") eqn:E; [|reflexivity].
  apply Ascii.eqb_eq in E. subst c.
  change (Ascii.eqb "-" ".") with false in H. cbn [orb] in H.
  apply take_digits_minus in H.
  destruct (take_digits r') as [fp r'']. cbn [snd] in H.
  destruct r''; [discriminate | reflexivity].
Qed.

(** X21. A balance whose cleaned text has a minus sign anywhere after its
    first character is not a numeral, and becomes 0: a range such as
    [10 - 20] or a trailing sign as in [5-] counts for nothing. *)
Theorem misplaced_minus_gives_zero (c : cell) (first : ascii) (rest : string) :
  clean_balance_text c = String first rest ->
  PyStr.sany (Ascii.eqb "-") rest = true ->
  normalize_balance c = 0.
Proof.
  intros E H. unfold normalize_balance, to_numeric. rewrite E.
  destruct (Ascii.eqb first "-").
  - now rewrite (parse_unsigned_minus rest H).
  - rewrite parse_unsigned_minus; [reflexivity|].
    cbn [PyStr.sany]. rewrite H. apply orb_true_r.
Qed.

Lemma misplaced_minus_gives_zero_witness :
  clean_balance_text (Str "10 - 20") = "10-20"
  /\ PyStr.sany (Ascii.eqb "-") "0-20" = true
  /\ normalize_balance (Str "10 - 20") = 0.
Proof.
  split; [reflexivity|]. split; [reflexivity|].
  exact (misplaced_minus_gives_zero (Str "10 - 20") "1" "0-20" eq_refl eq_refl).
Defined.

(** ** When the script raises *)

Lemma lookup_resolved (cols : list string) (key pretty : string) :
  In (key, pretty) required ->
  lookup (found cols) key = resolve cols key pretty.
Proof.
  rewrite found_entries. unfold lookup. simpl.
  intros [E|[E|[E|[E|[]]]]]; inversion E; subst; clear E; simpl;
    match goal with
    | |- context [match ?r with Some _ => _ | None => _ end] => destruct r
    end; reflexivity.
Qed.

Lemma resolve_in (cols : list string) (key pretty col : string) :
  resolve cols key pretty = Some col -> In col cols.
Proof.
  unfold resolve. destruct (_find_column_by_name cols pretty) as [c|] eqn:E.
  - intros [= <-]. now apply find_column_some in E.
  - intro H. now apply find_column_some in H.
Qed.

Lemma count_label_in (name : string) (cols : list string) :
  In name cols -> (1 <= count_label name cols)%nat.
Proof.
  unfold count_label. induction cols as [|c cols IH]; simpl; [intros []|].
  intros [->|H].
  - rewrite String.eqb_refl. simpl. lia.
  - destruct (String.eqb name c); simpl; [lia | now apply IH].
Qed.

Lemma series_none (cols : list string) (key pretty col : string) :
  resolve cols key pretty = Some col -> series cols col = None ->
  (2 <= count_label col cols)%nat.
Proof.
  intros R S. apply resolve_in, count_label_in in R. unfold series in S.
  destruct (Nat.eqb (count_label col cols) 1) eqn:E; [discriminate|].
  apply Nat.eqb_neq in E. lia.
Qed.

(** X22. The script raises between the schema check and the metrics only
    when a header that one of the four fields resolves to occurs twice among
    the trimmed headers, as when two headers differ by blanks only.  (The
    balances of this model are exact numbers.) *)
Theorem main_raises_on_repeated_header (df : DataFrame) :
  main df = Raised ->
  exists key pretty col,
    In (key, pretty) required
    /\ resolve (strip_columns (columns df)) key pretty = Some col
    /\ (2 <= count_label col (strip_columns (columns df)))%nat.
Proof.
  unfold main. set (cols := strip_columns (columns df)).
  destruct (missing (found cols)) as [|m ms] eqn:M; [|discriminate].
  pose proof (missing_nil_all_resolved cols M) as R.
  assert (I1 : In ("msku", "MSKU") required) by (simpl; tauto).
  assert (I2 : In ("disposition", "Disposition") required) by (simpl; tauto).
  assert (I3 : In ("balance", "Ending Warehouse Balance") required) by (simpl; tauto).
  assert (I4 : In ("location", "Location") required) by (simpl; tauto).
  rewrite (lookup_resolved cols _ _ I1), (lookup_resolved cols _ _ I2),
    (lookup_resolved cols _ _ I3), (lookup_resolved cols _ _ I4).
  destruct (resolve cols "msku" "MSKU") as [c1|] eqn:R1; [|now elim (R _ _ I1)].
  destruct (resolve cols "disposition" "Disposition") as [c2|] eqn:R2;
    [|now elim (R _ _ I2)].
  destruct (resolve cols "balance" "Ending Warehouse Balance") as [c3|] eqn:R3;
    [|now elim (R _ _ I3)].
  destruct (resolve cols "location" "Location") as [c4|] eqn:R4;
    [|now elim (R _ _ I4)].
  destruct (series cols c3) as [bal|] eqn:S3;
    [|intros _; exists "balance", "Ending Warehouse Balance", c3;
      split; [exact I3|]; split; [exact R3 | exact (series_none _ _ _ _ R3 S3)]].
  destruct (series cols c2) as [disp|] eqn:S2;
    [|intros _; exists "disposition", "Disposition", c2;
      split; [exact I2|]; split; [exact R2 | exact (series_none _ _ _ _ R2 S2)]].
  destruct (filter _ (rows df)); [discriminate|].
  destruct (series cols c4) as [loc|] eqn:S4;
    [|intros _; exists "location", "Location", c4;
      split; [exact I4|]; split; [exact R4 | exact (series_none _ _ _ _ R4 S4)]].
  destruct (series cols c1) as [msku|] eqn:S1; [discriminate|].
  intros _. exists "msku", "MSKU", c1.
  split; [exact I1|]. split; [exact R1 | exact (series_none _ _ _ _ R1 S1)].
Qed.

Lemma main_raises_on_repeated_header_witness :
  main (mkFrame ["MSKU"; " MSKU"; "Disposition"; "Ending Warehouse Balance"; "Location"]
                [[Str "X"; Str "X"; Str "SELLABLE"; Int 1; Str "A"]]) = Raised
  /\ exists key pretty col,
       In (key, pretty) required
       /\ (2 <= count_label col ["MSKU"; "MSKU"; "Disposition";
                                 "Ending Warehouse Balance"; "Location"])%nat.
Proof.
  split; [reflexivity|].
  destruct (main_raises_on_repeated_header
              (mkFrame ["MSKU"; " MSKU"; "Disposition"; "Ending Warehouse Balance";
                        "Location"]
                       [[Str "X"; Str "X"; Str "SELLABLE"; Int 1; Str "A"]]) eq_refl)
    as [key [pretty [col [H1 [_ H2]]]]].
  exists key, pretty, col. split; [exact H1 | exact H2].
Defined.

(** ** Metrics *)

Lemma contributions_nonempty (loc msku : cell) (l : list record) :
  contributions loc msku l <> [] <->
  exists r, In r l /\ fillna_unknown (r_location r) = loc /\ r_msku r = msku
            /\ msku <> NaN.
Proof.
  unfold contributions. split.
  - intro H. assert (H' : filter (fun r => cell_eqb (fillna_unknown (r_location r)) loc
                                    && cell_eqb (r_msku r) msku) l <> [])
      by (intro E; apply H; now rewrite E).
    apply filter_nonempty in H'. destruct H' as [r [Hr E]].
    apply andb_true_iff in E. destruct E as [E1 E2].
    apply cell_eqb_true in E1. apply cell_eqb_true in E2. exists r. tauto.
  - intros [r [Hr [E1 [E2 Hna]]]] E. apply map_eq_nil in E.
    assert (H : In r (filter (fun r => cell_eqb (fillna_unknown (r_location r)) loc
                               && cell_eqb (r_msku r) msku) l)).
    { apply filter_In. split; [exact Hr|]. apply andb_true_iff.
      split; apply cell_eqb_true; split; auto.
      subst loc. apply isna_false_iff, fillna_unknown_not_na. }
    rewrite E in H. exact H.
Qed.

(** X23. The metric of unique MSKUs counts the different MSKUs of the
    sellable rows, a missing one apart, each once however many locations
    hold it; the warehouses and the unique MSKUs are each at most as many
    as the rows of the aggregate. *)
Theorem unique_skus_counted (l : list record) :
  (exists mskus,
      NoDup mskus
      /\ (forall m, In m mskus <-> m <> NaN /\ exists r, In r l /\ r_msku r = m)
      /\ unique_skus (report_of (aggregate l)) = List.length mskus)
  /\ (unique_skus (report_of (aggregate l)) <= List.length (aggregate l))%nat
  /\ (total_warehouses (report_of (aggregate l)) <= List.length (aggregate l))%nat.
Proof.
  split; [|split].
  - exists (nodup cell_eq_dec
              (filter (fun c => negb (isna c)) (map MSKU (aggregate l)))).
    split; [apply NoDup_nodup|]. split; [|reflexivity].
    intro m. rewrite nodup_In, filter_In, in_map_iff, negb_true_iff, isna_false_iff.
    split.
    + intros [[[loc m' t] [E H]] Hna]. simpl in E. subst m'.
      apply aggregate_rows in H. destruct H as [H _].
      apply contributions_nonempty in H. destruct H as [r [Hr [_ [E _]]]].
      split; [exact Hna | now exists r].
    + intros [Hna [r [Hr E]]]. split; [|exact Hna].
      exists (mkAgg (fillna_unknown (r_location r)) m
                    (sum64 (contributions (fillna_unknown (r_location r)) m l))).
      split; [reflexivity|]. apply aggregate_rows. split; [|reflexivity].
      apply contributions_nonempty. exists r. tauto.
  - cbn [unique_skus report_of].
    etransitivity; [apply NoDup_incl_length; [apply NoDup_nodup|]|].
    + intros m H. apply nodup_In, filter_In in H. exact (proj1 H).
    + now rewrite length_map.
  - cbn [total_warehouses report_of].
    rewrite <- (length_map Location (aggregate l)).
    apply NoDup_incl_length; [apply locations_nodup|].
    intros loc H. apply locations_in in H. destruct H as [_ [r [Hr E]]].
    apply in_map_iff. now exists r.
Qed.
